(** * Spandrix template engine: reactive store, path resolver, evaluator
      guard, interpolation, component context, fetch state and root scheduler

    A shallow embedding of [src/templateEngine.js] (class [SpandrixEngine],
    first definition in the file).  JavaScript objects live in an explicit
    heap so that reference identity, aliasing and in-place mutation are
    what the program has; console output, DOM effects and callback
    invocations are recorded, in order, in a trace. *)

From Stdlib Require Import ZArith String Ascii List Lia Bool.
From Stdlib Require Import DecimalString.
From stdpp Require Import base list strings.

Open Scope string_scope.
Open Scope list_scope.

(** ** Text

    JavaScript strings are modelled as sequences of 8-bit code units. *)
Module Text.

(** The white space and line terminator code units below 256, as used by
    [String.prototype.trim] and by the regular expression class [\s]. *)
Definition is_space (a : ascii) : bool :=
  existsb (Ascii.eqb a)
    ["009"%char; "010"%char; "011"%char; "012"%char; "013"%char;
     " "%char; "160"%char].

Fixpoint trimStart (s : string) : string :=
  match s with
  | "" => ""
  | String a r => if is_space a then trimStart r else s
  end.

Fixpoint trimEnd (s : string) : string :=
  match s with
  | "" => ""
  | String a r =>
      match trimEnd r with
      | "" => if is_space a then "" else String a ""
      | r' => String a r'
      end
  end.

Definition trim (s : string) : string := trimEnd (trimStart s).

(** [s.split(sep)] for a one-character separator: never empty. *)
Fixpoint split (sep : ascii) (s : string) : list string :=
  match s with
  | "" => [""]
  | String a r =>
      if Ascii.eqb a sep then "" :: split sep r
      else match split sep r with
           | x :: xs => String a x :: xs
           | [] => [String a ""]
           end
  end.

Fixpoint join (sep : string) (l : list string) : string :=
  match l with
  | [] => ""
  | [x] => x
  | x :: rest => x +:+ sep +:+ join sep rest
  end.

Definition startsWith (s p : string) : bool := String.prefix p s.

(** ASCII case folding; a code unit of 128 or more never folds onto an
    ASCII letter under the [i] flag. *)
Definition lower (a : ascii) : ascii :=
  let n := nat_of_ascii a in
  if ((65 <=? n) && (n <=? 90))%nat then ascii_of_nat (n + 32) else a.

(** [ci_prefix p s]: the rest of [s] after a case-insensitive copy of [p]. *)
Fixpoint ci_prefix (p s : string) : option string :=
  match p with
  | "" => Some s
  | String a p' =>
      match s with
      | "" => None
      | String b s' =>
          if Ascii.eqb (lower a) (lower b) then ci_prefix p' s' else None
      end
  end.

(** [word\s*c] (or just [word] when [follow] is [None]) matched at the
    start of [s], ignoring case. *)
Definition match_here (word : string) (follow : option ascii) (s : string)
  : bool :=
  match ci_prefix word s with
  | None => false
  | Some r =>
      match follow with
      | None => true
      | Some c =>
          match trimStart r with
          | String b _ => Ascii.eqb b c
          | "" => false
          end
      end
  end.

(** An unanchored [RegExp.prototype.test]: some suffix matches. *)
Fixpoint search (m : string -> bool) (s : string) : bool :=
  m s || match s with
         | "" => false
         | String _ r => search m r
         end.

(** First occurrence of [pat] in [s]: the text before it and after it. *)
Fixpoint find (pat s : string) : option (string * string) :=
  if String.prefix pat s
  then Some ("", String.substring (String.length pat)
                   (String.length s - String.length pat) s)
  else match s with
       | "" => None
       | String a r =>
           match find pat r with
           | Some (before, after) => Some (String a before, after)
           | None => None
           end
       end.

(** [s.substring(n)] *)
Definition skip (n : nat) (s : string) : string :=
  String.substring n (String.length s - n) s.

Definition upper (a : ascii) : ascii :=
  let n := nat_of_ascii a in
  if ((97 <=? n) && (n <=? 122))%nat then ascii_of_nat (n - 32) else a.

(** [s.toUpperCase()] on ASCII letters. *)
Fixpoint toUpperCase (s : string) : string :=
  match s with
  | "" => ""
  | String a r => String (upper a) (toUpperCase r)
  end.

(** [s] between double quotes. *)
Definition quoted (s : string) : string :=
  String "034"%char (s +:+ String "034"%char "").

(** [s.includes(pat)] *)
Definition includes (s pat : string) : bool :=
  match find pat s with
  | Some _ => true
  | None => false
  end.

Definition dec (z : Z) : string := NilZero.string_of_int (Z.to_int z).

Definition hex_digit (n : nat) : ascii :=
  if (n <? 10)%nat then ascii_of_nat (48 + n) else ascii_of_nat (87 + n).

Definition dquote : ascii := "034"%char.

(** One code unit inside a JSON string literal. *)
Definition json_escape_char (a : ascii) : string :=
  let n := nat_of_ascii a in
  if Ascii.eqb a dquote then String "\"%char (String dquote "")
  else if Ascii.eqb a "\"%char then "\\"
  else if (n =? 8)%nat then "\b"
  else if (n =? 9)%nat then "\t"
  else if (n =? 10)%nat then "\n"
  else if (n =? 12)%nat then "\f"
  else if (n =? 13)%nat then "\r"
  else if (n <? 32)%nat then
    "\u00" +:+ String (hex_digit (n / 16)) (String (hex_digit (n mod 16)) "")
  else String a "".

Fixpoint json_escape (s : string) : string :=
  match s with
  | "" => ""
  | String a r => json_escape_char a +:+ json_escape r
  end.

Definition json_quote (s : string) : string :=
  String dquote (json_escape s +:+ String dquote "").

(** What [element.innerHTML] gives back for a text node holding [s]. *)
Fixpoint html_escape (s : string) : string :=
  match s with
  | "" => ""
  | String a r =>
      (if Ascii.eqb a "&"%char then "&amp;"
       else if Ascii.eqb a "<"%char then "&lt;"
       else if Ascii.eqb a ">"%char then "&gt;"
       else if Ascii.eqb a "160"%char then "&nbsp;"
       else String a "") +:+ html_escape r
  end.

End Text.

(** ** Values, objects and the heap *)

(** Heap locations are positions in the heap. *)
Abbreviation loc := nat (only parsing).

(** Numbers are restricted to integers.  A function value is known by its
    identity only: what it answers under a key is the realm's (see
    [primitive_get] below), and assignments to properties of functions are
    not modelled. *)
Inductive val :=
| VUndef
| VNull
| VBool (b : bool)
| VNum (n : Z)
| VStr (s : string)
| VFun (f : nat)
| VRef (l : loc).

#[global] Instance val_eq_dec : EqDecision val.
Proof. solve_decision. Defined.

(** [a === b] *)
Definition strict_eq (a b : val) : bool := bool_decide (a = b).

Definition truthy (v : val) : bool :=
  match v with
  | VUndef | VNull => false
  | VBool b => b
  | VNum n => negb (n =? 0)%Z
  | VStr s => negb (String.eqb s "")
  | VFun _ | VRef _ => true
  end.

(** [typeof v === 'object'] *)
Definition typeof_object (v : val) : bool :=
  match v with
  | VNull | VRef _ => true
  | _ => false
  end.

(** [typeof v === 'object' && v !== null] *)
Definition is_object (v : val) : bool :=
  match v with
  | VRef _ => true
  | _ => false
  end.

(** What an object is to [Array.isArray], [instanceof] and
    [Object.getPrototypeOf]: a plain object (prototype [Object.prototype]),
    an array, a [Date] (with the text its [toJSON] returns), a [RegExp], a
    DOM [Node], or an instance of some other class. *)
Inductive kind :=
| KPlain
| KArray
| KDate (iso : string)
| KRegExp
| KNode
| KInstance.

(** An ordinary object: its ordinary own data properties (writable,
    enumerable, configurable) in insertion order, and whether it has been
    frozen.  An array's elements are its properties ["0"], ["1"], ...
    Whatever else the object answers to (members of its prototype chain, own
    accessors, read-only own properties, an array's [length]) is given by
    the realm, see [exotic] below. *)
Record object := Obj {
  o_kind : kind;
  o_frozen : bool;
  o_props : list (string * val)
}.

(** The [updateCallback] a reactive proxy closes over: one of the functions
    the engine passes to [_makeReactive].  [CbRoot] is
    [_rootDataUpdateCallback]; [CbGlobalData] and [CbState] are the arrow
    functions given for [globalData] and [$state]; [CbFetch] is the one
    given for a fetch-state container, with the variables it closes over;
    [CbHost] stands for the callbacks of a component's props and data
    containers, whose bodies the realm gives; [CbNested] is the arrow
    function the [get] trap builds for a nested object:
    [() => updateCallback(target, String(key), target[key], value)];
    [CbNone] is a missing callback ([undefined]). *)
Inductive callback :=
| CbNone
| CbRoot
| CbGlobalData
| CbState
| CbFetch (effectiveFetchAsKey : string)
    (componentInstance targetContextObject dataContext : val)
| CbHost (id : nat)
| CbNested (parent : callback) (target : loc) (key : string) (orig : val).

#[global] Instance callback_eq_dec : EqDecision callback.
Proof. solve_decision. Defined.

(** A heap cell: an ordinary object, or a proxy built by [_makeReactive]
    with the target, callback and context name its handler closes over. *)
Inductive cell :=
| CObj (o : object)
| CProxy (target : loc) (cb : callback) (contextName : string).

Fixpoint prop_get (k : string) (ps : list (string * val)) : option val :=
  match ps with
  | [] => None
  | (k', v) :: rest => if String.eqb k k' then Some v else prop_get k rest
  end.

(** Assignment keeps the position of an existing key and appends a new one. *)
Fixpoint prop_set (k : string) (v : val) (ps : list (string * val))
  : list (string * val) :=
  match ps with
  | [] => [(k, v)]
  | (k', v') :: rest =>
      if String.eqb k k' then (k, v) :: rest else (k', v') :: prop_set k v rest
  end.

(** [delete]: the key is gone afterwards. *)
Definition prop_del (k : string) (ps : list (string * val))
  : list (string * val) :=
  List.filter (fun kv => negb (String.eqb k (fst kv))) ps.

Definition prop_has (k : string) (ps : list (string * val)) : bool :=
  match prop_get k ps with
  | Some _ => true
  | None => false
  end.

(** A missing property reads as [undefined]. *)
Definition or_undef (x : option val) : val :=
  match x with
  | Some v => v
  | None => VUndef
  end.

Definition with_props (o : object) (ps : list (string * val)) : object :=
  {| o_kind := o_kind o; o_frozen := o_frozen o; o_props := ps |}.

(** ** Exceptions and the trace *)

Inductive exn :=
| TypeError (msg : string)
| Thrown (v : val).

Inductive result (A : Type) :=
| Ok (a : A)
| Throw (e : exn).

Arguments Ok {A} a.
Arguments Throw {A} e.

Inductive event :=
| EvDebug (msg : string)
| EvWarn (msg : string)
| EvError (msg : string)
| EvCall (cb : callback) (target : loc) (key : string) (newv oldv seen : val)
| EvRootRender (template : val) (data : val)
| EvDispatch (el : val) (name : string) (detail : val).

(** Microtasks queued with [Promise.resolve().then(...)]. *)
Inductive task :=
| TRootReRender.

(** ** Engine state *)

Record options := Options {
  missingValuePlaceholder : string;
  debug : bool;
  strictExpressions : bool;
  allowRawHTML : bool;
  enablePerformanceMetrics : bool
}.

Record engine := Engine {
  opts : options;
  root : bool;
  rootInnerHTML : string;
  _originalRootTemplate : string;
  _currentRootData : val;
  _currentRootDataTarget : val;
  _currentRootTemplateString : val;
  _rootRerenderScheduled : bool;
  renders : nat;
  state : val;
  globalData : val
}.

(** The machine: the heap, the trace of effects so far, the microtask
    queue, the CSS classes present on DOM nodes ([node.classList]) and the
    engine's own fields. *)
Record world := World {
  heap : list cell;
  trace : list event;
  microtasks : list task;
  classes : list (nat * string);
  eng : engine
}.

Definition set_heap (h : list cell) (w : world) : world :=
  {| heap := h; trace := trace w; microtasks := microtasks w;
     classes := classes w; eng := eng w |}.

Definition emit_event (e : event) (w : world) : world :=
  {| heap := heap w; trace := trace w ++ [e];
     microtasks := microtasks w; classes := classes w; eng := eng w |}.

Definition set_microtasks (q : list task) (w : world) : world :=
  {| heap := heap w; trace := trace w; microtasks := q;
     classes := classes w; eng := eng w |}.

Definition set_classes (c : list (nat * string)) (w : world) : world :=
  {| heap := heap w; trace := trace w; microtasks := microtasks w;
     classes := c; eng := eng w |}.

Definition set_eng (e : engine) (w : world) : world :=
  {| heap := heap w; trace := trace w; microtasks := microtasks w;
     classes := classes w; eng := e |}.

Definition set_scheduled (b : bool) (e : engine) : engine :=
  {| opts := opts e; root := root e; rootInnerHTML := rootInnerHTML e;
     _originalRootTemplate := _originalRootTemplate e;
     _currentRootData := _currentRootData e;
     _currentRootDataTarget := _currentRootDataTarget e;
     _currentRootTemplateString := _currentRootTemplateString e;
     _rootRerenderScheduled := b;
     renders := renders e; state := state e; globalData := globalData e |}.

Definition set_renders (n : nat) (e : engine) : engine :=
  {| opts := opts e; root := root e; rootInnerHTML := rootInnerHTML e;
     _originalRootTemplate := _originalRootTemplate e;
     _currentRootData := _currentRootData e;
     _currentRootDataTarget := _currentRootDataTarget e;
     _currentRootTemplateString := _currentRootTemplateString e;
     _rootRerenderScheduled := _rootRerenderScheduled e;
     renders := n; state := state e; globalData := globalData e |}.

Definition set_rootData (d t tpl : val) (e : engine) : engine :=
  {| opts := opts e; root := root e; rootInnerHTML := rootInnerHTML e;
     _originalRootTemplate := _originalRootTemplate e;
     _currentRootData := d;
     _currentRootDataTarget := t;
     _currentRootTemplateString := tpl;
     _rootRerenderScheduled := _rootRerenderScheduled e;
     renders := renders e; state := state e; globalData := globalData e |}.

Definition set_innerHTML (html : string) (e : engine) : engine :=
  {| opts := opts e; root := root e; rootInnerHTML := html;
     _originalRootTemplate := _originalRootTemplate e;
     _currentRootData := _currentRootData e;
     _currentRootDataTarget := _currentRootDataTarget e;
     _currentRootTemplateString := _currentRootTemplateString e;
     _rootRerenderScheduled := _rootRerenderScheduled e;
     renders := renders e; state := state e; globalData := globalData e |}.

(** ** The computation monad: state and exceptions *)

Definition M (A : Type) : Type := world -> result A * world.

Definition ret {A : Type} (a : A) : M A := fun w => (Ok a, w).

Definition throw {A : Type} (e : exn) : M A := fun w => (Throw e, w).

Definition bind {A B : Type} (m : M A) (f : A -> M B) : M B :=
  fun w =>
    match m w with
    | (Ok a, w') => f a w'
    | (Throw e, w') => (Throw e, w')
    end.

Notation "x <- m ;; k" := (bind m (fun x => k))
  (at level 100, m at next level, right associativity).
Notation "m ;;; k" := (bind m (fun _ => k))
  (at level 100, right associativity).

Definition get_world : M world := fun w => (Ok w, w).

Definition modify (f : world -> world) : M unit := fun w => (Ok tt, f w).

Definition when (b : bool) (m : M unit) : M unit := if b then m else ret tt.

Definition console_warn (msg : string) : M unit :=
  modify (emit_event (EvWarn msg)).

Definition console_error (msg : string) : M unit :=
  modify (emit_event (EvError msg)).

(** [_logDebug(...args)]: the first argument is kept. *)
Definition _logDebug (msg : string) : M unit :=
  fun w =>
    if debug (opts (eng w)) then (Ok tt, emit_event (EvDebug msg) w)
    else (Ok tt, w).

(** ** The realm

    What the engine takes from JavaScript and from the page, and what this
    file therefore does not define: the members an object has beyond its
    ordinary own data properties, [JSON.stringify], the code of the page
    that the engine calls back (component callbacks and updates, [$state]
    watchers, hooks) and the processing of the root template into DOM
    nodes.  Getters, setters and [JSON.stringify] (with the [toJSON]
    methods it calls) work on the heap; the code of the page works on the
    whole machine.  Every theorem holds for every realm, under the
    hypotheses it states about it. *)

(** What an object answers under a key that is not one of its ordinary own
    data properties: a data property found on the prototype chain or a
    read-only own one ([writable] tells whether an assignment may shadow or
    overwrite it), or an accessor (getter and setter, own or inherited, such
    as [__proto__] or an array's [length]). *)
Inductive member :=
| MData (v : val) (writable : bool)
| MAccessor.

Record realm := Realm {
  (** the member of the object at a location, of a kind, under a key *)
  exotic : loc -> kind -> string -> option member;
  (** running the getter and the setter of an accessor *)
  accessor_get : loc -> string -> list cell -> result val * list cell;
  accessor_set : loc -> string -> val -> list cell
                 -> result bool * list cell;
  (** what a primitive value or a function answers under a key (a string's
      [length], a method of its prototype), and whether a function has the
      key *)
  primitive_get : val -> string -> val;
  function_has : nat -> string -> bool;
  (** [JSON.stringify(v)]: the text, [undefined] or an exception, and the
      heap it leaves (it reads reactive wrappers through their [get] trap) *)
  stringify : val -> list cell -> result (option string) * list cell;
  (** the body of the callback of a component's props or data container *)
  component_changed : nat -> loc -> string -> val -> val -> M unit;
  (** [componentInstance.$update()] *)
  component_update : val -> M unit;
  (** the loop of [_updateComponentsUsingGlobalStateOrGlobalData] over the
      mounted components of the document *)
  refresh_components : M unit;
  (** the loop of the [$state] callback over [_stateWatchers] *)
  state_watchers : string -> M unit;
  (** [this._hooks[hookName]]: each hook takes the template and the data
      of the render *)
  hooks : string -> list (val -> val -> M unit);
  (** the DOM work of [_reRenderRoot]: the components under the root are
      destroyed and the template is compiled and processed node by node
      into a fragment, whose markup is returned *)
  process_root : val -> val -> M string
}.

(** A heap transformer as a computation. *)
Definition on_heap {A : Type} (f : list cell -> result A * list cell) : M A :=
  fun w => (fst (f (heap w)), set_heap (snd (f (heap w))) w).

(** ** Ordinary objects *)

(** The ordinary own data property [k] of the object at [l], [undefined]
    when there is none. *)
Definition own_get (h : list cell) (l : loc) (k : string) : val :=
  match h !! l with
  | Some (CObj o) => or_undef (prop_get k (o_props o))
  | _ => VUndef
  end.

(** Whether the object at [l] has the ordinary own data property [k]. *)
Definition own_has (h : list cell) (l : loc) (k : string) : bool :=
  match h !! l with
  | Some (CObj o) => prop_has k (o_props o)
  | _ => false
  end.

Definition write_slot (l : loc) (k : string) (v : val) (o : object)
  (h : list cell) : list cell :=
  <[l := CObj (with_props o (prop_set k v (o_props o)))]> h.

(** [target[key]] and [Reflect.get(target, key, receiver)] on an ordinary
    object: the own data property, else what the realm gives, else
    [undefined]. *)
Definition obj_get (R : realm) (l : loc) (k : string) : M val :=
  fun w =>
    match heap w !! l with
    | Some (CObj o) =>
        match prop_get k (o_props o) with
        | Some v => (Ok v, w)
        | None =>
            match exotic R l (o_kind o) k with
            | None => (Ok VUndef, w)
            | Some (MData v _) => (Ok v, w)
            | Some MAccessor => on_heap (accessor_get R l k) w
            end
        end
    | _ => (Ok VUndef, w)
    end.

(** [key in target] on an ordinary object. *)
Definition obj_has (R : realm) (h : list cell) (l : loc) (k : string) : bool :=
  match h !! l with
  | Some (CObj o) =>
      prop_has k (o_props o)
      || match exotic R l (o_kind o) k with
         | Some _ => true
         | None => false
         end
  | _ => false
  end.

(** [Reflect.set(target, key, value, receiver)]: an own data property is
    overwritten and a missing one created, unless the target is frozen; a
    read-only member refuses the write; an accessor runs its setter. *)
Definition Reflect_set (R : realm) (l : loc) (k : string) (v : val) : M bool :=
  fun w =>
    match heap w !! l with
    | Some (CObj o) =>
        let store :=
          if o_frozen o then (Ok false, w)
          else (Ok true, set_heap (write_slot l k v o (heap w)) w) in
        match prop_get k (o_props o) with
        | Some _ => store
        | None =>
            match exotic R l (o_kind o) k with
            | None => store
            | Some (MData _ writable) => if writable then store else (Ok false, w)
            | Some MAccessor => on_heap (accessor_set R l k v) w
            end
        end
    | _ => (Ok false, w)
    end.

(** [target[key] = value] in strict code (class bodies are strict): a
    [TypeError] when the write is refused. *)
Definition own_assign (R : realm) (l : loc) (k : string) (v : val) : M unit :=
  ok <- Reflect_set R l k v ;;
  if ok then ret tt
  else throw (TypeError "Cannot assign to read only property").

(** [Reflect.deleteProperty(target, key)]: an own data property is removed,
    unless the target is frozen; a key that is not one is left alone. *)
Definition Reflect_deleteProperty (l : loc) (k : string) : M bool :=
  fun w =>
    match heap w !! l with
    | Some (CObj o) =>
        if o_frozen o && prop_has k (o_props o) then (Ok false, w)
        else (Ok true,
              set_heap (<[l := CObj (with_props o (prop_del k (o_props o)))]>
                          (heap w)) w)
    | _ => (Ok false, w)
    end.

Definition alloc (c : cell) : M loc :=
  fun w => (Ok (length (heap w)), set_heap (heap w ++ [c]) w).

(** The object literal [{}]. *)
Definition new_object : M val :=
  l <- alloc (CObj (Obj KPlain false [])) ;; ret (VRef l).

(** [JSON.stringify(v)] *)
Definition JSON_stringify (R : realm) (v : val) : M (option string) :=
  on_heap (stringify R v).

(** ** Root render scheduler *)

(** The loop of [_callHook] over the hooks of one name: an exception is
    caught and logged, and the next hook runs. *)
Fixpoint run_hooks (hookName : string) (fs : list (val -> val -> M unit))
  (templateString dataForRootProxy : val) : M unit :=
  match fs with
  | [] => ret tt
  | hookFn :: rest =>
      (fun w =>
         match hookFn templateString dataForRootProxy w with
         | (Ok _, w') => (Ok tt, w')
         | (Throw _, w') =>
             console_error ("Spandrix: Error in hook '" +:+ hookName +:+ "':")
               w'
         end) ;;;
      run_hooks hookName rest templateString dataForRootProxy
  end.

Definition _callHook (R : realm) (hookName : string)
  (templateString dataForRootProxy : val) : M unit :=
  run_hooks hookName (hooks R hookName) templateString dataForRootProxy.

(** [_logPerformance(label, fn)]: the duration is not part of the record. *)
Definition _logPerformance (label : string) (fn : M unit) : M unit :=
  fun w =>
    if negb (enablePerformanceMetrics (opts (eng w))) then fn w
    else (fn ;;; _logDebug label) w.

(** [_reRenderRoot]: the start of the DOM work is recorded as an
    [EvRootRender] event; the work itself is the realm's, and the markup it
    returns becomes the root's [innerHTML]. *)
Definition _reRenderRoot (R : realm) (templateString dataForRootProxy : val)
  : M unit :=
  fun w =>
    if negb (root (eng w))
    then console_warn "Spandrix: Root element not set. Cannot re-render root." w
    else
      _logPerformance "Root Re-render"
        (_logDebug "Re-rendering root." ;;;
         _callHook R "beforeRootRender" templateString dataForRootProxy ;;;
         modify (emit_event (EvRootRender templateString dataForRootProxy)) ;;;
         html <- process_root R templateString dataForRootProxy ;;
         modify (fun w' => set_eng (set_innerHTML html (eng w')) w') ;;;
         _callHook R "afterRootRender" templateString dataForRootProxy ;;;
         _logDebug "Root re-render complete." ;;;
         fun w' =>
           if enablePerformanceMetrics (opts (eng w'))
           then (Ok tt,
                 set_eng (set_renders (S (renders (eng w'))) (eng w')) w')
           else (Ok tt, w')) w.

Arguments _reRenderRoot : simpl never.

Definition _scheduleRootReRender : M unit :=
  fun w =>
    if _rootRerenderScheduled (eng w) then (Ok tt, w)
    else
      (Ok tt,
       set_microtasks (microtasks w ++ [TRootReRender])
         (set_eng (set_scheduled true (eng w)) w)).

(** The microtask queued by [_scheduleRootReRender], with its [catch]. *)
Definition run_task (R : realm) (t : task) : M unit :=
  match t with
  | TRootReRender =>
      fun w =>
        let w1 := set_eng (set_scheduled false (eng w)) w in
        match _reRenderRoot R (_currentRootTemplateString (eng w1))
                (_currentRootData (eng w1)) w1 with
        | (Ok _, w2) => (Ok tt, w2)
        | (Throw _, w2) =>
            (console_error "Spandrix: Error in scheduled root re-render:" ;;;
             modify (fun w' => set_eng (set_scheduled false (eng w')) w')) w2
        end
  end.

(** The microtask checkpoint at the end of the current tick: the queue is
    drained, tasks queued on the way included.  [fuel] bounds the number of
    tasks run; a queue that is not empty at the end has outlasted it. *)
Fixpoint run_microtasks (R : realm) (fuel : nat) : M unit :=
  fun w =>
    match microtasks w with
    | [] => (Ok tt, w)
    | t :: rest =>
        match fuel with
        | 0 => (Ok tt, w)
        | S fuel' =>
            (run_task R t ;;; run_microtasks R fuel') (set_microtasks rest w)
        end
    end.

Definition _rootDataUpdateCallback (target : loc) (key : string)
  (value oldValue : val) : M unit :=
  _logDebug ("Root data reactive change on key '" +:+ key +:+ "':") ;;;
  _scheduleRootReRender.

(** ** Refresh after a change of [globalData] or [$state] *)

(** Whether [k] is an array index: the canonical decimal text of an
    integer below [2^32 - 1]. *)
Definition digit_value (a : ascii) : option N :=
  let n := N_of_ascii a in
  if ((48 <=? n) && (n <=? 57))%N then Some (n - 48)%N else None.

Fixpoint digits_value (acc : N) (s : string) : option N :=
  match s with
  | "" => Some acc
  | String a r =>
      match digit_value a with
      | Some d => digits_value (acc * 10 + d)%N r
      | None => None
      end
  end.

Definition array_index (k : string) : option N :=
  match k with
  | "" => None
  | String a r =>
      if Ascii.eqb a "0" && negb (String.eqb r "") then None
      else
        match digits_value 0 k with
        | Some n =>
            if ((String.length k <=? 10)%nat && (n <? 4294967295)%N)%bool
            then Some n else None
        | None => None
        end
  end.

Fixpoint insert_index (n : N) (k : string) (l : list (N * string))
  : list (N * string) :=
  match l with
  | [] => [(n, k)]
  | (m, k') :: rest =>
      if (n <? m)%N then (n, k) :: l else (m, k') :: insert_index n k rest
  end.

Fixpoint index_keys (ks : list string) : list (N * string) :=
  match ks with
  | [] => []
  | k :: rest =>
      match array_index k with
      | Some n => insert_index n k (index_keys rest)
      | None => index_keys rest
      end
  end.

(** The order in which JavaScript lists own keys: array indices in
    ascending order, then the other keys in insertion order. *)
Definition key_order (ks : list string) : list string :=
  map snd (index_keys ks)
  ++ List.filter (fun k => match array_index k with
                           | Some _ => false
                           | None => true
                           end) ks.

(** The own enumerable keys [for (const key in v)] visits. *)
Definition own_keys (h : list cell) (v : val) : list string :=
  match v with
  | VRef l =>
      match h !! l with
      | Some (CObj o) => key_order (map fst (o_props o))
      | Some (CProxy t _ _) =>
          match h !! t with
          | Some (CObj o) => key_order (map fst (o_props o))
          | _ => []
          end
      | None => []
      end
  | _ => []
  end.

(** [_expressionUsesGlobal(template, null, globalData, state)] *)
Definition _expressionUsesGlobal (template : string) (globalKeys : list string)
  : bool :=
  Text.includes template "$state"
  || Text.includes template "globalData"
  || existsb (Text.includes template) globalKeys.

(** [_updateComponentsUsingGlobalStateOrGlobalData] *)
Definition _updateComponentsUsingGlobalStateOrGlobalData (R : realm)
  : M unit :=
  _logDebug "Checking components for global state/data changes." ;;;
  refresh_components R ;;;
  fun w =>
    let e := eng w in
    if root e && truthy (_currentRootTemplateString e)
       && match _currentRootTemplateString e with
          | VStr s =>
              Text.includes s "$state" || Text.includes s "globalData"
              || _expressionUsesGlobal s (own_keys (heap w) (globalData e))
          | _ => false
          end
    then (_logDebug "Global change triggered root re-render." ;;;
          _scheduleRootReRender) w
    else (Ok tt, w).

(** ** Reactive store *)

(** The body of the callback given for a fetch-state container. *)
Definition fetch_state_changed (R : realm)
  (effectiveFetchAsKey changedKey : string)
  (componentInstance targetContextObject dataContext : val) : M unit :=
  _logDebug ("data-fetch: State change in '" +:+ effectiveFetchAsKey
             +:+ "." +:+ changedKey +:+ "'") ;;;
  mounted <- (match componentInstance with
              | VRef c =>
                  m <- obj_get R c "_mounted" ;; ret (truthy m)
              | _ => ret false
              end) ;;
  if truthy componentInstance && mounted
  then component_update R componentInstance
  else
    fun w =>
      if strict_eq targetContextObject (_currentRootData (eng w))
         || strict_eq dataContext (_currentRootData (eng w))
      then _scheduleRootReRender w
      else (Ok tt, w).

(** Calling an [updateCallback] with [(target, key, value, oldValue)].  The
    call is recorded together with what the slot [key] of [target] holds
    when it is made. *)
Fixpoint invoke (R : realm) (cb : callback) (target : loc) (key : string)
  (value oldValue : val) : M unit :=
  fun w =>
    let w1 :=
      emit_event
        (EvCall cb target key value oldValue (own_get (heap w) target key)) w in
    match cb with
    | CbNone => (Throw (TypeError "updateCallback is not a function"), w)
    | CbRoot => _rootDataUpdateCallback target key value oldValue w1
    | CbGlobalData =>
        (_logDebug "GlobalData changed, updating affected components and root."
         ;;; _updateComponentsUsingGlobalStateOrGlobalData R) w1
    | CbState =>
        (_logDebug ("Global $state changed: " +:+ key) ;;;
         state_watchers R key ;;;
         _updateComponentsUsingGlobalStateOrGlobalData R) w1
    | CbFetch fetchAs componentInstance targetContextObject dataContext =>
        fetch_state_changed R fetchAs key componentInstance
          targetContextObject dataContext w1
    | CbHost id => component_changed R id target key value oldValue w1
    | CbNested parent t k orig =>
        (current <- obj_get R t k ;; invoke R parent t k current orig) w1
    end.

(** [if (updateCallback)] *)
Definition callback_truthy (cb : callback) : bool :=
  match cb with
  | CbNone => false
  | _ => true
  end.

(** [v._isReactiveProxy]: the [get] trap of a reactive proxy answers
    [true]; an ordinary object is read. *)
Definition reactive_flag (R : realm) (v : val) : M val :=
  fun w =>
    match v with
    | VRef l =>
        match heap w !! l with
        | Some (CProxy _ _ _) => (Ok (VBool true), w)
        | _ => obj_get R l "_isReactiveProxy" w
        end
    | _ => (Ok (primitive_get R v "_isReactiveProxy"), w)
    end.

Definition _makeReactive (R : realm) (obj : val) (updateCallback : callback)
  (contextName : string) : M val :=
  flag <- (if truthy obj then reactive_flag R obj else ret VUndef) ;;
  if truthy obj && truthy flag then ret obj
  else
    match obj with
    | VRef l =>
        p <- alloc (CProxy l updateCallback contextName) ;; ret (VRef p)
    | _ => ret obj
    end.

(** [value instanceof Node], [Date], [RegExp] *)
Definition is_node (k : kind) : bool :=
  match k with KNode => true | _ => false end.

Definition is_date (k : kind) : bool :=
  match k with KDate _ => true | _ => false end.

Definition is_regexp (k : kind) : bool :=
  match k with KRegExp => true | _ => false end.

(** [Array.isArray(value) || Object.getPrototypeOf(value) === Object.prototype] *)
Definition array_or_plain (k : kind) : bool :=
  match k with
  | KPlain | KArray => true
  | _ => false
  end.

(** What the [get] trap asks of a value that is not reactive before it
    wraps it: not frozen, no [Node], [Date] or [RegExp], an array or a
    plain object. *)
Definition wrap_candidate (h : list cell) (value : val) : bool :=
  match value with
  | VRef l =>
      match h !! l with
      | Some (CObj o) =>
          negb (o_frozen o)
          && negb (is_node (o_kind o))
          && negb (is_date (o_kind o))
          && negb (is_regexp (o_kind o))
          && array_or_plain (o_kind o)
      | _ => false
      end
  | _ => false
  end.

(** The condition under which the [get] trap wraps [value]. *)
Definition wrappable (R : realm) (value : val) : M bool :=
  if typeof_object value && negb (strict_eq value VNull) then
    flag <- reactive_flag R value ;;
    fun w => (Ok (negb (truthy flag) && wrap_candidate (heap w) value), w)
  else ret false.

(** The [get] trap of the handler built by [_makeReactive]. *)
Definition get_trap (R : realm) (target : loc) (updateCallback : callback)
  (contextName key : string) : M val :=
  if String.eqb key "_isReactiveProxy" then ret (VBool true)
  else if String.eqb key "_reactiveTarget" then ret (VRef target)
  else
    value <- obj_get R target key ;;
    wrap <- wrappable R value ;;
    (if wrap then
       current <- obj_get R target key ;;
       if strict_eq current value then
         p <- _makeReactive R value
                (CbNested updateCallback target key value)
                (contextName +:+ "." +:+ key) ;;
         own_assign R target key p
       else ret tt
     else ret tt) ;;;
    obj_get R target key.

(** The [set] trap. *)
Definition set_trap (R : realm) (target : loc) (updateCallback : callback)
  (contextName key : string) (value : val) : M bool :=
  oldValue <- obj_get R target key ;;
  if strict_eq value oldValue
     && (negb (typeof_object value) || strict_eq value VNull)
  then ret true
  else
    result <- Reflect_set R target key value ;;
    (if result && negb (Text.startsWith key "_") then
       so <- JSON_stringify R oldValue ;;
       sn <- JSON_stringify R value ;;
       let hasChanged := negb (bool_decide (so = sn)) in
       if hasChanged then
         _logDebug ("Reactive set in " +:+ contextName +:+ ": " +:+ key) ;;;
         if callback_truthy updateCallback
         then invoke R updateCallback target key value oldValue
         else ret tt
       else ret tt
     else ret tt) ;;;
    ret result.

(** The [deleteProperty] trap. *)
Definition deleteProperty_trap (R : realm) (target : loc)
  (updateCallback : callback) (contextName key : string) : M bool :=
  oldValue <- obj_get R target key ;;
  result <- Reflect_deleteProperty target key ;;
  (if result && negb (Text.startsWith key "_") then
     _logDebug ("Reactive delete in " +:+ contextName +:+ ": " +:+ key) ;;;
     if callback_truthy updateCallback
     then invoke R updateCallback target key VUndef oldValue
     else ret tt
   else ret tt) ;;;
  ret result.

(** ** Property access on any value *)

(** [v[k]] *)
Definition get_prop (R : realm) (v : val) (k : string) : M val :=
  fun w =>
    match v with
    | VUndef | VNull =>
        (Throw (TypeError "Cannot read properties of null or undefined"), w)
    | VRef l =>
        match heap w !! l with
        | Some (CProxy t cb name) => get_trap R t cb name k w
        | _ => obj_get R l k w
        end
    | _ => (Ok (primitive_get R v k), w)
    end.

(** [v[k] = x] in strict code. *)
Definition set_prop (R : realm) (v : val) (k : string) (x : val) : M unit :=
  fun w =>
    match v with
    | VRef l =>
        match heap w !! l with
        | Some (CProxy t cb name) =>
            (ok <- set_trap R t cb name k x ;;
             if ok then ret tt
             else throw (TypeError "'set' on proxy: trap returned falsish")) w
        | _ => own_assign R l k x w
        end
    | _ => (Throw (TypeError "Cannot set properties"), w)
    end.

(** [k in v] *)
Definition has_prop (R : realm) (v : val) (k : string) : M bool :=
  fun w =>
    match v with
    | VRef l =>
        match heap w !! l with
        | Some (CProxy t _ _) => (Ok (obj_has R (heap w) t k), w)
        | _ => (Ok (obj_has R (heap w) l k), w)
        end
    | VFun f => (Ok (function_has R f k), w)
    | _ => (Throw (TypeError "Cannot use 'in' operator"), w)
    end.

(** [delete v[k]] in strict code. *)
Definition delete_prop (R : realm) (v : val) (k : string) : M unit :=
  fun w =>
    match v with
    | VUndef | VNull =>
        (Throw (TypeError "Cannot convert undefined or null to object"), w)
    | VRef l =>
        (ok <- match heap w !! l with
               | Some (CProxy t cb name) => deleteProperty_trap R t cb name k
               | _ => Reflect_deleteProperty l k
               end ;;
         if ok then ret tt
         else throw (TypeError "Cannot delete property")) w
    | _ => (Ok tt, w)
    end.

Arguments get_prop : simpl never.
Arguments set_prop : simpl never.
Arguments has_prop : simpl never.
Arguments delete_prop : simpl never.

(** ** Path resolver *)

(** The reducer of [_getValueByPath]. *)
Definition path_step (R : realm) (acc : M val) (key : string) : M val :=
  a <- acc ;;
  if truthy a && typeof_object a then
    present <- has_prop R a key ;;
    if present then get_prop R a key else ret VUndef
  else ret VUndef.

Definition _getValueByPath (R : realm) (obj : val) (path : val) : M val :=
  if strict_eq path (VStr ".") || negb (truthy path) then ret obj
  else
    match path with
    | VStr s => fold_left (path_step R) (Text.split "."%char s) (ret obj)
    | _ => ret VUndef
    end.

(** The loop of [_setValueByPath] over the keys before the last. *)
Fixpoint set_walk (R : realm) (current : val) (keys : list string) : M val :=
  match keys with
  | [] => ret current
  | key :: rest =>
      c1 <- get_prop R current key ;;
      missing <- (if negb (truthy c1) then ret true
                  else c2 <- get_prop R current key ;;
                       ret (negb (typeof_object c2))) ;;
      when missing (fresh <- new_object ;; set_prop R current key fresh) ;;;
      next <- get_prop R current key ;;
      set_walk R next rest
  end.

Definition _setValueByPath (R : realm) (obj : val) (path : val) (value : val)
  : M bool :=
  match path with
  | VStr s =>
      if negb (truthy (VStr (Text.trim s))) then
        _logDebug "_setValueByPath: Invalid path." ;;; ret false
      else
        let keys := Text.split "."%char s in
        let lastKey := List.last keys "" in
        current <- set_walk R obj (removelast keys) ;;
        set_prop R current lastKey value ;;;
        ret true
  | _ => _logDebug "_setValueByPath: Invalid path." ;;; ret false
  end.

(** ** Construction and [applyData] *)

Definition default_options : options :=
  {| missingValuePlaceholder := "";
     debug := false;
     strictExpressions := false;
     allowRawHTML := false;
     enablePerformanceMetrics := false |}.

Definition cb_globalData : callback := CbGlobalData.
Definition cb_state : callback := CbState.

(** [new SpandrixEngine(rootSelector, userOptions)]: [rootElement] is what
    [document.querySelector] found, given by its [innerHTML]. *)
Definition constructor (R : realm) (rootElement : option string)
  (userOptions : options) : result world :=
  match rootElement with
  | None => Throw (Thrown (VStr "Spandrix: Root element not found."))
  | Some html =>
      let w0 :=
        {| heap := []; trace := []; microtasks := []; classes := [];
           eng := {| opts := userOptions; root := true;
                     rootInnerHTML := html;
                     _originalRootTemplate := html;
                     _currentRootData := VUndef;
                     _currentRootDataTarget := VUndef;
                     _currentRootTemplateString := VUndef;
                     _rootRerenderScheduled := false;
                     renders := 0; state := VUndef;
                     globalData := VUndef |} |} in
      match
        (target <- new_object ;;
         data <- _makeReactive R target CbRoot "_currentRootData_initial" ;;
         modify (fun w => set_eng (set_rootData data target VNull (eng w)) w) ;;;
         modify (fun w => set_eng (set_scheduled false (eng w)) w) ;;;
         g0 <- new_object ;;
         g <- _makeReactive R g0 cb_globalData "globalData" ;;
         s0 <- new_object ;;
         s <- _makeReactive R s0 cb_state "$state" ;;
         modify (fun w =>
           set_eng
             {| opts := opts (eng w); root := root (eng w);
                rootInnerHTML := rootInnerHTML (eng w);
                _originalRootTemplate := _originalRootTemplate (eng w);
                _currentRootData := _currentRootData (eng w);
                _currentRootDataTarget := _currentRootDataTarget (eng w);
                _currentRootTemplateString :=
                  _currentRootTemplateString (eng w);
                _rootRerenderScheduled := _rootRerenderScheduled (eng w);
                renders := renders (eng w); state := s; globalData := g |}
             w)) w0
      with
      | (Ok _, w) => Ok w
      | (Throw e, _) => Throw e
      end
  end.

(** [a || b] on values. *)
Definition js_or (a b : val) : val := if truthy a then a else b.

(** [templateString || this.root.innerHTML || this._originalRootTemplate],
    and the original template once more when that is falsy. *)
Definition chosen_template (templateString : val) (e : engine) : val :=
  let tpl :=
    js_or (js_or templateString (VStr (rootInnerHTML e)))
          (VStr (_originalRootTemplate e)) in
  if negb (truthy tpl) && root e then VStr (_originalRootTemplate e) else tpl.

(** The reads the object spread [{ ...src }] makes: each own enumerable
    property, in key order. *)
Fixpoint read_keys (R : realm) (src : val) (keys : list string) : M unit :=
  match keys with
  | [] => ret tt
  | k :: rest => get_prop R src k ;;; read_keys R src rest
  end.

Definition spread_reads (R : realm) (src : val) : M unit :=
  fun w => read_keys R src (own_keys (heap w) src) w.

Definition applyData (R : realm) (userData : val) (templateString : val)
  : M unit :=
  fun w =>
    if negb (root (eng w))
    then console_warn "Spandrix: Root element not set. Cannot applyData." w
    else
      (newRootData <- (if typeof_object userData
                          && negb (strict_eq userData VNull)
                       then ret userData else new_object) ;;
       spread_reads R newRootData ;;;
       _logDebug "Applying data to root:" ;;;
       data <- _makeReactive R newRootData CbRoot
                 "_currentRootData_userProvided" ;;
       modify (fun w' =>
         set_eng (set_rootData data newRootData
                    (chosen_template templateString (eng w')) (eng w')) w') ;;;
       fun w' =>
         _reRenderRoot R (_currentRootTemplateString (eng w'))
           (_currentRootData (eng w')) w') w.
(** ** Observing callback invocations in the trace *)

Definition is_call_of (cb : callback) (e : event) : bool :=
  match e with
  | EvCall c _ _ _ _ _ => bool_decide (c = cb)
  | _ => false
  end.

(** The recorded invocations of [cb], oldest first. *)
Definition calls_of (cb : callback) (tr : list event) : list event :=
  List.filter (is_call_of cb) tr.

Definition is_call (e : event) : bool :=
  match e with
  | EvCall _ _ _ _ _ _ => true
  | _ => false
  end.

Fixpoint cb_depth (cb : callback) : nat :=
  match cb with
  | CbNested parent _ _ _ => S (cb_depth parent)
  | _ => 0
  end.

(** The chain of closures behind [cb] ends in a function, not in
    [undefined]. *)
Fixpoint cb_rooted (cb : callback) : bool :=
  match cb with
  | CbNone => false
  | CbNested parent _ _ _ => cb_rooted parent
  | _ => true
  end.

Definition below_depth (n : nat) (e : event) : Prop :=
  match e with
  | EvCall c _ _ _ _ _ => cb_depth c < n
  | _ => True
  end.

(** The callback does nothing but log and schedule the root re-render: it
    is the root callback, or the callback of a fetch-state container made
    outside a component, possibly behind the closures of nested wrappers.
    (The other callbacks run code of the page.) *)
Fixpoint cb_defers (cb : callback) : bool :=
  match cb with
  | CbRoot => true
  | CbFetch _ componentInstance _ _ => negb (truthy componentInstance)
  | CbNested parent _ _ _ => cb_defers parent
  | _ => false
  end.

(** The keys the closures of nested wrappers behind [cb] read. *)
Fixpoint cb_keys (cb : callback) : list string :=
  match cb with
  | CbNested parent _ k _ => k :: cb_keys parent
  | _ => []
  end.

(** ** Ordinary slots *)

(** No object of the realm has anything under [k] beyond an ordinary own
    data property: no prototype defines [k], and nowhere is it an accessor
    or a read-only property. *)
Definition plain_key (R : realm) (k : string) : Prop :=
  forall l kd, exotic R l kd k = None.

(** The same for one object: [k] is one of its ordinary own data
    properties, or it answers nothing under [k]. *)
Definition plain_slot (R : realm) (l : loc) (o : object) (k : string) : bool :=
  match prop_get k (o_props o) with
  | Some _ => true
  | None =>
      match exotic R l (o_kind o) k with
      | None => true
      | Some _ => false
      end
  end.

(** What [target[key]] reads when no accessor is involved: the own data
    property, else the data member the realm gives, else [undefined]. *)
Definition slot_value (R : realm) (l : loc) (o : object) (k : string) : val :=
  match prop_get k (o_props o) with
  | Some v => v
  | None =>
      match exotic R l (o_kind o) k with
      | Some (MData v _) => v
      | _ => VUndef
      end
  end.

(** An assignment to [k] ends in an ordinary own data property: [k] is one
    already, or the object answers nothing under [k], or what it answers is
    a writable data member (which the assignment shadows). *)
Definition data_slot (R : realm) (l : loc) (o : object) (k : string) : bool :=
  match prop_get k (o_props o) with
  | Some _ => true
  | None =>
      match exotic R l (o_kind o) k with
      | None => true
      | Some (MData _ writable) => writable
      | Some MAccessor => false
      end
  end.

(** ** Batches of synchronous mutations *)

(** One statement of a synchronous block that writes to reactive data. *)
Inductive mutation :=
| Assign (obj : val) (key : string) (value : val)
| Remove (obj : val) (key : string)
| AssignPath (obj : val) (path : val) (value : val).

Definition mutate (R : realm) (m : mutation) : M unit :=
  match m with
  | Assign obj key value => set_prop R obj key value
  | Remove obj key => delete_prop R obj key
  | AssignPath obj path value => _setValueByPath R obj path value ;;; ret tt
  end.

(** The statements in order; an exception ends the block. *)
Fixpoint mutate_all (R : realm) (ms : list mutation) : M unit :=
  match ms with
  | [] => ret tt
  | m :: rest => mutate R m ;;; mutate_all R rest
  end.

Definition is_render (e : event) : bool :=
  match e with
  | EvRootRender _ _ => true
  | _ => false
  end.

(** The root re-renders started, oldest first. *)
Definition renders_of (tr : list event) : list event :=
  List.filter is_render tr.

(** The scheduler's flag and its queue agree. *)
Definition sched_inv (w : world) : Prop :=
  microtasks w =
    if _rootRerenderScheduled (eng w) then [TRootReRender] else [].

(** What a store operation may do to the scheduler and the trace: it
    renders nothing, it never clears the flag, it has raised the flag
    whenever the root callback has run, and it keeps flag and queue in
    step. *)
Record sched_step (w w' : world) : Prop := SchedStep {
  ss_root : root (eng w') = root (eng w);
  ss_trace :
    exists evs,
      trace w' = trace w ++ evs
      /\ renders_of evs = []
      /\ (calls_of CbRoot evs <> [] -> _rootRerenderScheduled (eng w') = true);
  ss_flag :
    _rootRerenderScheduled (eng w) = true ->
    _rootRerenderScheduled (eng w') = true;
  ss_inv : sched_inv w -> sched_inv w'
}.

Definition steps {A : Type} (m : M A) : Prop :=
  forall w, sched_step w (snd (m w)).

(** The code of the page that callbacks reach goes through the scheduler:
    it may ask for a root re-render, it does not render the root itself. *)
Record page_steps (R : realm) : Prop := PageSteps {
  ps_changed : forall id t k v old, steps (component_changed R id t k v old);
  ps_update : forall c, steps (component_update R c);
  ps_refresh : steps (refresh_components R);
  ps_watchers : forall k, steps (state_watchers R k)
}.

(** What a root render may do when it is to stay the only one: it leaves
    the scheduler as it found it and starts no render of its own. *)
Definition still {A : Type} (m : M A) : Prop :=
  forall w,
    microtasks (snd (m w)) = microtasks w
    /\ _rootRerenderScheduled (eng (snd (m w))) = _rootRerenderScheduled (eng w)
    /\ root (eng (snd (m w))) = root (eng w)
    /\ opts (eng (snd (m w))) = opts (eng w)
    /\ renders_of (trace (snd (m w))) = renders_of (trace w).

Record still_render (R : realm) : Prop := StillRender {
  sr_process : forall tpl data, still (process_root R tpl data);
  sr_hooks : forall name tpl data,
    Forall (fun hookFn => still (hookFn tpl data)) (hooks R name)
}.

(** ** Frames

    [frame K h h']: going from [h] to [h'] no cell changes what it is, a
    proxy stays as it was, and an ordinary object keeps its kind, its
    frozen flag and, for every key not in [K], what the property holds, up
    to an object held there being replaced by another one (its reactive
    wrapper, which the [get] trap stores in place of the object). *)
Definition slot_kept (x y : option val) : Prop :=
  x = y \/ exists a b, x = Some (VRef a) /\ y = Some (VRef b).

Record frame (K : list string) (h h' : list cell) : Prop := Frame {
  fr_proxy : forall l t cb name,
    h !! l = Some (CProxy t cb name) -> h' !! l = Some (CProxy t cb name);
  fr_obj : forall l o,
    h !! l = Some (CObj o) ->
    exists o',
      h' !! l = Some (CObj o')
      /\ o_frozen o' = o_frozen o
      /\ o_kind o' = o_kind o
      /\ forall k, ~ In k K ->
           slot_kept (prop_get k (o_props o)) (prop_get k (o_props o'))
}.

(** A computation that touches the keys in [K] at most, however it ends. *)
Definition framed {A : Type} (K : list string) (m : M A) : Prop :=
  forall w, frame K (heap w) (heap (snd (m w))).

(** A computation that leaves the heap alone, however it ends. *)
Definition heap_kept {A : Type} (m : M A) : Prop :=
  forall w, heap (snd (m w)) = heap w.

(** An ordinary object that accepts writes. *)
Definition extensible_at (h : list cell) (l : loc) : Prop :=
  exists o, h !! l = Some (CObj o) /\ o_frozen o = false.

(** [JSON.stringify] changes the heap by wrapping at most: it reads
    reactive wrappers through their [get] trap. *)
Definition stringify_wraps (R : realm) : Prop :=
  forall v h, frame [] h (snd (stringify R v h)).

(** [JSON.stringify(v)] returns. *)
Definition stringifies (R : realm) (h : list cell) (v : val) : bool :=
  match fst (stringify R v h) with
  | Ok _ => true
  | Throw _ => false
  end.

(** ** Quiet computations *)

(** A computation that succeeds, leaves the heap alone and records no
    callback invocation. *)
Definition not_call (e : event) : Prop :=
  match e with
  | EvCall _ _ _ _ _ _ => False
  | _ => True
  end.

Definition quiet (m : M unit) : Prop :=
  forall w, exists w' evs,
    m w = (Ok tt, w')
    /\ heap w' = heap w
    /\ trace w' = trace w ++ evs
    /\ Forall not_call evs.

(** A computation that works on the heap alone: no event, no microtask, no
    change of the engine's fields. *)
Definition heap_only {A : Type} (m : M A) : Prop :=
  forall w, exists h, snd (m w) = set_heap h w.

(** A computation that returns, whatever the state. *)
Definition returns {A : Type} (m : M A) : Prop :=
  forall w, exists a, fst (m w) = Ok a.

(** A computation that leaves the scheduler alone and starts exactly the
    render [ev], however it ends. *)
Definition renders_once {A : Type} (ev : event) (m : M A) : Prop :=
  forall w,
    microtasks (snd (m w)) = microtasks w
    /\ _rootRerenderScheduled (eng (snd (m w))) = _rootRerenderScheduled (eng w)
    /\ root (eng (snd (m w))) = root (eng w)
    /\ opts (eng (snd (m w))) = opts (eng w)
    /\ renders_of (trace (snd (m w))) = renders_of (trace w) ++ [ev].
(** ** The host

    What the heap does not carry and the engine takes from its
    environment: how a number, an object or a function prints
    ([Number.prototype.toString]; an object's [toString] lives on its
    prototype chain), the tail of [_buildScopedEvaluator] that gathers
    the scope and compiles the expression with the [Function] constructor,
    the entries of a component's template context, the argument literals
    and lookups of [_parseFilterCall], and the registered filters. *)
Record host := Host {
  number_text : Z -> string;
  object_text : list cell -> nat -> string;
  function_text : nat -> string;
  compile_scoped : string -> val -> val -> val -> M (M val);
  template_context_entries : val -> M (list (string * val));
  filter_args : string -> val -> M (list val);
  filters : string -> option (val -> list val -> M val)
}.

(** The text [String(v)] gives. *)
Definition js_text (H : host) (h : list cell) (v : val) : string :=
  match v with
  | VUndef => "undefined"
  | VNull => "null"
  | VBool b => if b then "true" else "false"
  | VNum n => number_text H n
  | VStr s => s
  | VFun f => function_text H f
  | VRef l => object_text H h l
  end.

(** [String(v)] *)
Definition js_String (H : host) (v : val) : M string :=
  fun w => (Ok (js_text H (heap w) v), w).

Definition _sanitizeHTML (H : host) (input : val) : M string :=
  match input with
  | VStr s => ret (Text.html_escape s)
  | VUndef | VNull => ret ""
  | _ => js_String H input
  end.

(** ** Expression evaluator *)

(** The denylist, each pattern as its unanchored, case-insensitive test. *)
Definition dangerousPatterns : list (string -> bool) :=
  [Text.search (Text.match_here "Function" (Some "("%char));
   Text.search (Text.match_here "eval" (Some "("%char));
   Text.search (Text.match_here "setTimeout" (Some "("%char));
   Text.search (Text.match_here "setInterval" (Some "("%char));
   Text.search (Text.match_here "__proto__" None);
   Text.search (Text.match_here "constructor" (Some "["%char))].

Definition _isValidExpression (expression : string) : bool :=
  negb (existsb (fun pattern => pattern expression) dangerousPatterns).

(** An evaluator is the closure [_buildScopedEvaluator] returns, run later. *)
Definition evaluator : Type := M val.

Definition noop_evaluator : evaluator := ret VUndef.

Definition _buildScopedEvaluator (H : host) (expression : val)
  (baseDataContext componentInstance additionalScope : val) : M evaluator :=
  match expression with
  | VStr e =>
      if negb (truthy expression) || negb (truthy (VStr (Text.trim e)))
      then ret noop_evaluator
      else if negb (_isValidExpression e) then
        console_warn ("Spandrix: Blocked unsafe expression: " +:+ Text.quoted e)
        ;;; ret noop_evaluator
      else compile_scoped H e baseDataContext componentInstance additionalScope
  | _ => ret noop_evaluator
  end.

(** ** Interpolation *)

(** One step of [templateStr.replace(/{{{([\s\S]*?)}}}|{{([\s\S]*?)}}/g, f)]:
    a character copied as it is, or a match with its two capture groups
    ([None] for a group that did not take part). *)
Inductive piece :=
| Lit (c : ascii)
| Hit (rawExpr escapedExpr : option string).

Fixpoint scan (fuel : nat) (s : string) : list piece :=
  match fuel with
  | 0 => []
  | S f =>
      match s with
      | "" => []
      | String c rest =>
          match (if String.prefix "{{{" s
                 then Text.find "}}}" (Text.skip 3 s) else None) with
          | Some (content, after) => Hit (Some content) None :: scan f after
          | None =>
              match (if String.prefix "{{" s
                     then Text.find "}}" (Text.skip 2 s) else None) with
              | Some (content, after) =>
                  Hit None (Some content) :: scan f after
              | None => Lit c :: scan f rest
              end
          end
      end
  end.

Fixpoint render (f : option string -> option string -> M string)
  (ps : list piece) : M string :=
  match ps with
  | [] => ret ""
  | Lit c :: rest => r <- render f rest ;; ret (String c r)
  | Hit rawExpr escapedExpr :: rest =>
      x <- f rawExpr escapedExpr ;;
      r <- render f rest ;;
      ret (x +:+ r)
  end.

(** [{...acc, ...src}] for an object [src]: each own enumerable property is
    read with [src[key]]. *)
Fixpoint copy_props (R : realm) (src : val) (keys : list string)
  (acc : list (string * val)) : M (list (string * val)) :=
  match keys with
  | [] => ret acc
  | k :: rest => v <- get_prop R src k ;; copy_props R src rest (prop_set k v acc)
  end.

Definition spread (R : realm) (src : val) (acc : list (string * val))
  : M (list (string * val)) :=
  fun w => copy_props R src (own_keys (heap w) src) acc w.

Fixpoint merge_entries (entries acc : list (string * val))
  : list (string * val) :=
  match entries with
  | [] => acc
  | (k, v) :: rest => merge_entries rest (prop_set k v acc)
  end.

(** The object literal [filterArgEvalContext]. *)
Definition filterArgEvalContext (H : host) (R : realm)
  (dataContext componentInstance loopScope : val) : M val :=
  own <- (if truthy componentInstance
          then ctx <- get_prop R componentInstance "_templateContext" ;;
               template_context_entries H ctx
          else ret []) ;;
  p1 <- spread R dataContext (merge_entries own []) ;;
  p2 <- spread R loopScope p1 ;;
  p3 <- (fun w => spread R (globalData (eng w)) p2 w) ;;
  fun w =>
    (l <- alloc (CObj (Obj KPlain false
                         (prop_set "$state" (state (eng w)) p3))) ;;
     ret (VRef l)) w.

(** The loop over [filterCalls]. *)
Fixpoint apply_filters (H : host) (filterCalls : list string)
  (evaluationContext value : val) : M val :=
  match filterCalls with
  | [] => ret value
  | filterCallStr :: rest =>
      let filterName :=
        Text.trim (hd "" (Text.split ":"%char filterCallStr)) in
      filterArgs <- filter_args H filterCallStr evaluationContext ;;
      value' <-
        match filters H filterName with
        | Some filter =>
            fun w =>
              match filter value filterArgs w with
              | (Ok v, w') => (Ok v, w')
              | (Throw _, w') =>
                  (console_error ("Spandrix: Error in filter "
                                  +:+ Text.quoted filterName +:+ ":") ;;;
                   ret value) w'
              end
        | None =>
            console_warn ("Spandrix: Filter " +:+ Text.quoted filterName
                          +:+ " not found.") ;;;
            ret value
        end ;;
      apply_filters H rest evaluationContext value'
  end.

(** The replacer function of [_interpolateString]. *)
Definition interpolate_match (H : host) (R : realm)
  (dataContext componentInstance loopScope : val)
  (rawExpr escapedExpr : option string) : M string :=
  let isRaw :=
    match rawExpr with
    | Some s => truthy (VStr s)
    | None => false
    end in
  match (if isRaw then rawExpr else escapedExpr) with
  | None =>
      throw (TypeError "Cannot read properties of undefined (reading 'trim')")
  | Some text =>
      let expressionAndFilters := Text.trim text in
      let parts := map Text.trim (Text.split "|"%char expressionAndFilters) in
      let expression := hd "" parts in
      let filterCalls := tl parts in
      ev <- _buildScopedEvaluator H (VStr expression) dataContext
              componentInstance loopScope ;;
      value <- ev ;;
      ctx <- filterArgEvalContext H R dataContext componentInstance loopScope ;;
      value <- apply_filters H filterCalls ctx value ;;
      if isRaw then
        fun w =>
          if negb (allowRawHTML (opts (eng w))) then
            (console_warn ("Spandrix: Raw HTML disabled for {{{ "
                           +:+ expression +:+ " }}}") ;;;
             ret (missingValuePlaceholder (opts (eng w)))) w
          else
            match value with
            | VUndef | VNull => (Ok "", w)
            | _ => js_String H value w
            end
      else
        stringValue <-
          (match value with
           | VUndef | VNull =>
               fun w => (Ok (VStr (missingValuePlaceholder (opts (eng w)))), w)
           | VRef _ =>
               s <- JSON_stringify R value ;;
               ret (match s with Some t => VStr t | None => VUndef end)
           | _ => s <- js_String H value ;; ret (VStr s)
           end) ;;
        _sanitizeHTML H stringValue
  end.

Definition _interpolateString (H : host) (R : realm)
  (templateStr dataContext componentInstance loopScope : val) : M string :=
  match templateStr with
  | VStr s =>
      render (interpolate_match H R dataContext componentInstance loopScope)
        (scan (String.length s) s)
  | VUndef | VNull => ret ""
  | _ => js_String H templateStr
  end.

(** ** Component instances

    A component instance is the object literal built by [_renderComponent];
    its template context is a proxy over it whose handler closes over the
    component definition. *)
Record componentDef := ComponentDef {
  _name : string;
  data_is_function : bool
}.

(** [read && key in read], where [read] is a property read that the source
    writes out twice. *)
Definition truthy_and_has (R : realm) (read : M val) (key : string) : M bool :=
  v <- read ;;
  if truthy v then v' <- read ;; has_prop R v' key else ret false.

(** The [set] trap of [_templateContext], for a string key.  [target] is
    the component instance; each [target._componentData], [target.$props]
    and [target._parentLoopScope] of the source is a read of its own. *)
Definition templateContext_set (R : realm) (componentDef : componentDef)
  (target : loc) (key : string) (value : val) : M bool :=
  let _componentData := get_prop R (VRef target) "_componentData" in
  let props := get_prop R (VRef target) "$props" in
  let _parentLoopScope := get_prop R (VRef target) "_parentLoopScope" in
  let state := fun w => (Ok (state (eng w)), w) in
  data <- _componentData ;;
  toData <- (if truthy data
             then data' <- _componentData ;;
                  present <- has_prop R data' key ;;
                  ret (present || data_is_function componentDef)
             else ret false) ;;
  if toData then
    data' <- _componentData ;; set_prop R data' key value ;;; ret true
  else
    isProp <- truthy_and_has R props key ;;
    if isProp then
      console_warn ("Spandrix: Cannot set prop " +:+ Text.quoted key
                    +:+ " on <" +:+ _name componentDef
                    +:+ ">. Props are one-way.") ;;;
      ret false
    else
      inScope <- truthy_and_has R _parentLoopScope key ;;
      objectInScope <- (if inScope
                        then scope <- _parentLoopScope ;;
                             c1 <- get_prop R scope key ;;
                             if typeof_object c1
                             then scope' <- _parentLoopScope ;;
                                  c2 <- get_prop R scope' key ;;
                                  ret (negb (strict_eq c2 VNull))
                             else ret false
                        else ret false) ;;
      if objectInScope then
        scope <- _parentLoopScope ;; set_prop R scope key value ;;; ret true
      else
        inState <- truthy_and_has R state key ;;
        if inState then st <- state ;; set_prop R st key value ;;; ret true
        else set_prop R (VRef target) key value ;;; ret true.

(** The rest-parameter array [detail]. *)
Fixpoint index_props (i : nat) (vs : list val) : list (string * val) :=
  match vs with
  | [] => []
  | v :: rest => (Text.dec (Z.of_nat i), v) :: index_props (S i) rest
  end.

(** [$emit(event, ...detail)] of the component instance at
    [componentInstance]. *)
Definition emit (R : realm) (componentInstance : loc) (event : string)
  (detail : list val) : M unit :=
  destroyed <- get_prop R (VRef componentInstance) "_destroyed" ;;
  if truthy destroyed then ret tt
  else
    payload <- (match detail with
                | [x] => ret x
                | _ => l <- alloc (CObj (Obj KArray false
                                           (index_props 0 detail))) ;;
                       ret (VRef l)
                end) ;;
    el <- get_prop R (VRef componentInstance) "$el" ;;
    match el with
    | VRef _ => modify (emit_event (EvDispatch el event payload))
    | _ =>
        throw (TypeError
                 "Cannot read properties of null (reading 'dispatchEvent')")
    end.

(** ** Fetch directive *)

(** [node.classList] *)
Definition classList_contains (node : nat) (cls : string) : M bool :=
  fun w =>
    (Ok (existsb (fun p => Nat.eqb (fst p) node && String.eqb (snd p) cls)
           (classes w)), w).

Definition classList_remove (node : nat) (cls : string) : M unit :=
  modify (fun w =>
    set_classes
      (List.filter
         (fun p => negb (Nat.eqb (fst p) node && String.eqb (snd p) cls))
         (classes w)) w).

Definition classList_add (node : nat) (cls : string) : M unit :=
  present <- classList_contains node cls ;;
  if present then ret tt
  else modify (fun w => set_classes (classes w ++ [(node, cls)]) w).

(** What [node.getAttribute] returns for the attributes the directive
    reads: [null] or a string. *)
Record fetchAttributes := FetchAttributes {
  data_fetch : val;
  data_fetch_as : val;
  data_fetch_method : val;
  data_fetch_loading_class : val;
  data_fetch_error_class : val;
  data_fetch_cache : val
}.

(** The variables the promise handlers of one request close over. *)
Record fetchRequest := FetchRequest {
  fetchUrl : string;
  fetchMethod : string;
  node : nat;
  fetchStateContainer : val;
  fetchRequestId : string;
  fetchLoadingClass : val;
  fetchErrorClass : val
}.

Definition text_of (v : val) (fallback : string) : string :=
  match js_or v (VStr fallback) with
  | VStr s => s
  | _ => fallback
  end.

(** [if (cls && node.classList)]: an element always has a class list. *)
Definition with_class (cls : val) (f : string -> M unit) : M unit :=
  match cls with
  | VStr s => if truthy cls then f s else ret tt
  | _ => ret tt
  end.

(** The fresh fetch-state object. *)
Definition new_fetch_state : object :=
  Obj KPlain false
    [("$loading", VBool false); ("$error", VNull); ("data", VNull);
     ("_spxLastFetchId", VNull);
     ("_spxLastFetchCompletedSuccessfully", VBool false);
     ("_spxIsCurrentlyFetching", VBool false)].

(** [JSON.stringify({ url: fetchUrl, method: fetchMethod })] *)
Definition request_id (url method : string) : string :=
  "{" +:+ Text.quoted "url" +:+ ":" +:+ Text.json_quote url +:+ ","
  +:+ Text.quoted "method" +:+ ":" +:+ Text.json_quote method +:+ "}".

Definition marker : string := "_spx_node_is_fetching_this_request_id".

(** [_processFetchDirective], up to the call of [this.request]: the result
    is the request that was started, if one was. *)
Definition _processFetchDirective (H : host) (R : realm) (node : nat)
  (attrs : fetchAttributes) (dataContext componentInstance loopScope : val)
  : M (option fetchRequest) :=
  if negb (truthy (data_fetch attrs)) then ret None
  else
    contextForInterpolation <-
      (if truthy componentInstance
       then get_prop R componentInstance "_templateContext"
       else ret dataContext) ;;
    fetchUrl <- _interpolateString H R (data_fetch attrs)
                  contextForInterpolation componentInstance loopScope ;;
    let fetchAs := text_of (data_fetch_as attrs) "fetchedData" in
    let fetchMethod :=
      Text.toUpperCase (text_of (data_fetch_method attrs) "GET") in
    let fetchLoadingClass := data_fetch_loading_class attrs in
    let fetchErrorClass := data_fetch_error_class attrs in
    let explicitNoCache := strict_eq (data_fetch_cache attrs) (VStr "false") in
    target <-
      (if Text.startsWith fetchAs "$state."
       then fun w => (Ok (state (eng w), Text.skip 7 fetchAs), w)
       else if Text.startsWith fetchAs "globalData."
       then fun w => (Ok (globalData (eng w), Text.skip 11 fetchAs), w)
       else if truthy componentInstance
       then d <- get_prop R componentInstance "_componentData" ;;
            ret (d, fetchAs)
       else ret (dataContext, fetchAs)) ;;
    let targetContextObject := fst target in
    let effectiveFetchAsKey := snd target in
    found <- _getValueByPath R targetContextObject (VStr effectiveFetchAsKey) ;;
    reactive <- (if truthy found && typeof_object found
                 then flag <- get_prop R found "_isReactiveProxy" ;;
                      ret (truthy flag)
                 else ret false) ;;
    fetchStateContainer <-
      (if negb (truthy found) || negb (typeof_object found) || negb reactive
       then
         raw <- alloc (CObj new_fetch_state) ;;
         newContainer <-
           _makeReactive R (VRef raw)
             (CbFetch effectiveFetchAsKey componentInstance
                targetContextObject dataContext)
             ("fetchState_" +:+ effectiveFetchAsKey) ;;
         _setValueByPath R targetContextObject (VStr effectiveFetchAsKey)
           newContainer ;;;
         ret newContainer
       else
         busy <- get_prop R found "_spxIsCurrentlyFetching" ;;
         when (strict_eq busy VUndef)
           (set_prop R found "_spxIsCurrentlyFetching" (VBool false)) ;;;
         ret found) ;;
    let fetchRequestId := request_id fetchUrl fetchMethod in
    lastId <- get_prop R fetchStateContainer "_spxLastFetchId" ;;
    cached <-
      (if strict_eq lastId (VStr fetchRequestId)
       then done <- get_prop R fetchStateContainer
                      "_spxLastFetchCompletedSuccessfully" ;;
            ret (truthy done && negb explicitNoCache)
       else ret false) ;;
    if cached
    then
      _logDebug "data-fetch: Using cached data for" ;;;
      loading <- get_prop R fetchStateContainer "$loading" ;;
      when (truthy loading)
        (set_prop R fetchStateContainer "$loading" (VBool false)) ;;;
      m <- get_prop R (VRef node) marker ;;
      when (strict_eq m (VStr fetchRequestId))
        (delete_prop R (VRef node) marker) ;;;
      ret None
    else
      m <- get_prop R (VRef node) marker ;;
      inFlight <-
        (if strict_eq m (VStr fetchRequestId) then ret true
         else
           busy <- get_prop R fetchStateContainer "_spxIsCurrentlyFetching" ;;
           if strict_eq busy (VBool true)
           then lastId' <- get_prop R fetchStateContainer "_spxLastFetchId" ;;
                ret (strict_eq lastId' (VStr fetchRequestId))
           else ret false) ;;
      if inFlight
      then
        _logDebug ("data-fetch: Already fetching " +:+ fetchUrl
                   +:+ ". Skipping.") ;;;
        loading <- get_prop R fetchStateContainer "$loading" ;;
        when (negb (truthy loading))
          (set_prop R fetchStateContainer "$loading" (VBool true)) ;;;
        with_class fetchLoadingClass (classList_add node) ;;;
        ret None
      else
        _logDebug ("data-fetch: Initiating fetch for " +:+ fetchUrl) ;;;
        set_prop R (VRef node) marker (VStr fetchRequestId) ;;;
        set_prop R fetchStateContainer "_spxIsCurrentlyFetching" (VBool true) ;;;
        set_prop R fetchStateContainer "_spxLastFetchId" (VStr fetchRequestId) ;;;
        set_prop R fetchStateContainer "_spxLastFetchCompletedSuccessfully"
          (VBool false) ;;;
        set_prop R fetchStateContainer "$loading" (VBool true) ;;;
        set_prop R fetchStateContainer "$error" VNull ;;;
        with_class fetchLoadingClass (classList_add node) ;;;
        with_class fetchErrorClass (classList_remove node) ;;;
        _logDebug "Request:" ;;;
        ret (Some {| fetchUrl := fetchUrl; fetchMethod := fetchMethod;
                     node := node;
                     fetchStateContainer := fetchStateContainer;
                     fetchRequestId := fetchRequestId;
                     fetchLoadingClass := fetchLoadingClass;
                     fetchErrorClass := fetchErrorClass |})
  .

(** [.then(data => ...)] *)
Definition fetch_then (R : realm) (r : fetchRequest) (data : val) : M unit :=
  set_prop R (fetchStateContainer r) "data" data ;;;
  set_prop R (fetchStateContainer r) "$error" VNull ;;;
  set_prop R (fetchStateContainer r) "_spxLastFetchCompletedSuccessfully"
    (VBool true).

(** [error.message] for what a promise was rejected with. *)
Definition error_message (R : realm) (error : exn) : M val :=
  match error with
  | TypeError msg => ret (VStr msg)
  | Thrown v => get_prop R v "message"
  end.

(** [String(error)] *)
Definition error_text (H : host) (error : exn) : M string :=
  match error with
  | TypeError msg =>
      ret (if String.eqb msg "" then "TypeError" else "TypeError: " +:+ msg)
  | Thrown v => js_String H v
  end.

(** [.catch(error => ...)] *)
Definition fetch_catch (H : host) (R : realm) (r : fetchRequest) (error : exn) : M unit :=
  console_error ("Spandrix: data-fetch to " +:+ Text.quoted (fetchUrl r)
                 +:+ " failed:") ;;;
  set_prop R (fetchStateContainer r) "data" VNull ;;;
  message <- error_message R error ;;
  shown <- (if truthy message then ret message
            else s <- error_text H error ;; ret (VStr s)) ;;
  set_prop R (fetchStateContainer r) "$error" shown ;;;
  with_class (fetchErrorClass r) (classList_add (node r)).

(** [.finally(() => ...)] *)
Definition fetch_finally (R : realm) (r : fetchRequest) : M unit :=
  m <- get_prop R (VRef (node r)) marker ;;
  when (strict_eq m (VStr (fetchRequestId r)))
    (delete_prop R (VRef (node r)) marker) ;;;
  lastId <- get_prop R (fetchStateContainer r) "_spxLastFetchId" ;;
  when (strict_eq lastId (VStr (fetchRequestId r)))
    (set_prop R (fetchStateContainer r) "_spxIsCurrentlyFetching"
       (VBool false)) ;;;
  set_prop R (fetchStateContainer r) "$loading" (VBool false) ;;;
  with_class (fetchLoadingClass r) (classList_remove (node r)).

(** The promise chain [request.then(...).catch(...).finally(...)] once the
    transport promise has settled with [outcome]: what the three handlers
    do, one after the other, and how the chain settles itself.  A handler
    that throws rejects the chain from there on; [finally] runs either way.
    (A root re-render scheduled by a handler is a job of its own and stays
    in the queue.) *)
Definition settle (H : host) (R : realm) (r : fetchRequest) (outcome : result val)
  : M unit :=
  fun w =>
    let after_then :=
      match outcome with
      | Ok data => fetch_then R r data w
      | Throw e => (Throw e, w)
      end in
    let after_catch :=
      match after_then with
      | (Ok _, w1) => (Ok tt, w1)
      | (Throw e, w1) => fetch_catch H R r e w1
      end in
    match fetch_finally R r (snd after_catch) with
    | (Ok _, w3) => (fst after_catch, w3)
    | (Throw e, w3) => (Throw e, w3)
    end.

(** ** Where the handlers run on ordinary slots *)

Definition is_accessor (m : option member) : bool :=
  match m with
  | Some MAccessor => true
  | _ => false
  end.

(** The keys of a fetch-state container. *)
Definition container_keys : list string :=
  ["$loading"; "$error"; "data"; "_spxLastFetchId";
   "_spxLastFetchCompletedSuccessfully"; "_spxIsCurrentlyFetching"].

(** The object at [l], of kind [kd], answers nothing under the keys [ks]
    beyond its own data properties: its prototype chain does not define
    them and none is an accessor or read-only. *)
Definition bare_at (R : realm) (l : loc) (kd : kind) (ks : list string)
  : Prop :=
  Forall (fun k => exotic R l kd k = None) ks.

(** A rejection value whose [message] can be read without running code of
    the page: a run-time [TypeError], a primitive, or an ordinary object
    whose [message] is no accessor. *)
Definition plain_error (R : realm) (h : list cell) (e : exn) : bool :=
  match e with
  | Thrown (VRef el) =>
      match h !! el with
      | Some (CObj eo) => negb (is_accessor (exotic R el (o_kind eo) "message"))
      | _ => false
      end
  | _ => true
  end.

Definition plain_outcome (R : realm) (h : list cell) (outcome : result val)
  : bool :=
  match outcome with
  | Ok _ => true
  | Throw e => plain_error R h e
  end.

(** A rejection value the [catch] handler gets a text from: a run-time
    [TypeError], a primitive other than [null] and [undefined], or an
    ordinary object whose [message] is a truthy primitive (such as the
    [Error] objects [request] throws). *)
Definition readable_error (R : realm) (h : list cell) (e : exn) : bool :=
  match e with
  | TypeError _ => true
  | Thrown (VRef el) =>
      match h !! el with
      | Some (CObj eo) =>
          negb (is_accessor (exotic R el (o_kind eo) "message"))
          && truthy (slot_value R el eo "message")
          && negb (is_object (slot_value R el eo "message"))
      | _ => false
      end
  | Thrown VUndef | Thrown VNull => false
  | Thrown v => negb (is_object (primitive_get R v "message"))
  end.

(** [error.message || String(error)] for such a value. *)
Definition shown_error (H : host) (R : realm) (h : list cell) (e : exn)
  : val :=
  match e with
  | TypeError msg => if truthy (VStr msg) then VStr msg else VStr "TypeError"
  | Thrown (VRef el) =>
      match h !! el with
      | Some (CObj eo) => slot_value R el eo "message"
      | _ => VUndef
      end
  | Thrown v =>
      if truthy (primitive_get R v "message") then primitive_get R v "message"
      else VStr (js_text H h v)
  end.

(** The keys the [then] and [catch] handlers write, and those the
    [finally] handler writes. *)
Definition then_keys : list string :=
  ["data"; "$error"; "_spxLastFetchCompletedSuccessfully"].

Definition finally_keys : list string :=
  [marker; "_spxIsCurrentlyFetching"; "$loading"].
(** ** The site of a fetch request

    The heap as the promise handlers of one request need it: the state
    container is the reactive wrapper [p] over the extensible ordinary
    object [t], of kind [kt]; the element [n] is an extensible ordinary
    object of kind [kn]; and the rejection value, if there is one, has a
    [message] that is read without running code of the page. *)
Record fetch_site (R : realm) (p t : loc) (cb : callback) (name : string)
  (n : nat) (kt kn : kind) (outcome : result val) (h : list cell) : Prop :=
  FetchSite {
    fs_proxy : h !! p = Some (CProxy t cb name);
    fs_target :
      exists o, h !! t = Some (CObj o) /\ o_frozen o = false /\ o_kind o = kt;
    fs_node :
      exists el,
        h !! n = Some (CObj el) /\ o_frozen el = false /\ o_kind el = kn;
    fs_outcome : plain_outcome R h outcome = true
  }.

(** A computation that, started on a heap with [P], touches the keys in
    [K] at most, however it ends. *)
Definition keeps {A : Type} (K : list string) (P : list cell -> Prop)
  (m : M A) : Prop :=
  forall w, P (heap w) -> frame K (heap w) (heap (snd (m w))).

(** A property of heaps that frames preserve. *)
Definition stable (P : list cell -> Prop) : Prop :=
  forall K h h', frame K h h' -> P h -> P h'.

(** [JSON.stringify] of a primitive returns. *)
Definition stringify_plain (R : realm) : Prop :=
  forall v h, is_object v = false -> exists s, fst (stringify R v h) = Ok s.

(** The value in slot [k] of [t] is [null] already, or it can still be
    serialised once the slot holds [null]: the [set] trap serialises the
    old value after the store. *)
Definition clearable (R : realm) (h : list cell) (t : loc) (k : string)
  : bool :=
  match h !! t with
  | Some (CObj o) =>
      strict_eq (own_get h t k) VNull
      || stringifies R (write_slot t k VNull o h) (own_get h t k)
  | _ => false
  end.

(** What the handlers need of [JSON.stringify]: it changes the heap by
    wrapping at most, it returns on primitives, and when it fails it
    throws a [TypeError] (as it does for a cyclic structure; no getter and
    no [toJSON] method throws something of its own). *)
Record json_laws (R : realm) : Prop := JsonLaws {
  jl_wraps : stringify_wraps R;
  jl_plain : stringify_plain R;
  jl_throws :
    forall v h e, fst (stringify R v h) = Throw e -> exists msg, e = TypeError msg
}.
(** ** A sample realm

    The realm of the examples: a page without components, watchers and
    hooks, whose root render leaves the markup as it is. *)

(** The members of [Object.prototype], which every object of the samples
    inherits (what [Array.prototype] and the DOM interfaces add is left
    out; no example reads it). *)
Definition object_prototype : list (string * member) :=
  [("constructor", MData (VFun 1) true);
   ("hasOwnProperty", MData (VFun 2) true);
   ("isPrototypeOf", MData (VFun 3) true);
   ("propertyIsEnumerable", MData (VFun 4) true);
   ("toLocaleString", MData (VFun 5) true);
   ("toString", MData (VFun 6) true);
   ("valueOf", MData (VFun 7) true);
   ("__defineGetter__", MData (VFun 8) true);
   ("__defineSetter__", MData (VFun 9) true);
   ("__lookupGetter__", MData (VFun 10) true);
   ("__lookupSetter__", MData (VFun 11) true);
   ("__proto__", MAccessor)].

Fixpoint member_of (k : string) (ms : list (string * member)) : option member :=
  match ms with
  | [] => None
  | (k', m) :: rest => if String.eqb k k' then Some m else member_of k rest
  end.

Definition sample_exotic (l : loc) (kd : kind) (k : string) : option member :=
  match kd with
  | KArray => if String.eqb k "length" then Some MAccessor
              else member_of k object_prototype
  | _ => member_of k object_prototype
  end.

(** The getters of the sample realm: an array's [length] counts its
    elements; the prototype objects are no cells of the heap, so
    [__proto__] reads as [undefined] here. *)
Definition sample_getter (l : loc) (k : string) (h : list cell)
  : result val * list cell :=
  match h !! l with
  | Some (CObj o) =>
      if String.eqb k "length"
      then (Ok (VNum (Z.of_nat (length (index_keys (map fst (o_props o)))))),
            h)
      else (Ok VUndef, h)
  | _ => (Ok VUndef, h)
  end.

(** The setters of the sample realm store nothing. *)
Definition sample_setter (l : loc) (k : string) (v : val) (h : list cell)
  : result bool * list cell :=
  (Ok true, h).

(** A serialiser for the sample realm.  It reads a proxy through to its
    target and lists keys in JavaScript's order; a cyclic structure
    exhausts the fuel, which is one more than the number of cells, and is
    the [TypeError] JavaScript raises.  It is right on the values of the
    examples: primitives, and objects without [toJSON] methods whose
    wrappers have nothing left to wrap. *)
Fixpoint json_items (rs : list (result (option string)))
  : result (list string) :=
  match rs with
  | [] => Ok []
  | Throw e :: _ => Throw e
  | Ok s :: rest =>
      match json_items rest with
      | Throw e => Throw e
      | Ok l => Ok (default "null" s :: l)
      end
  end.

Fixpoint json_members (rs : list (string * result (option string)))
  : result (list string) :=
  match rs with
  | [] => Ok []
  | (_, Throw e) :: _ => Throw e
  | (k, Ok s) :: rest =>
      match json_members rest with
      | Throw e => Throw e
      | Ok l =>
          match s with
          | None => Ok l
          | Some t => Ok ((Text.json_quote k +:+ ":" +:+ t) :: l)
          end
      end
  end.

Definition ordered_props (ps : list (string * val)) : list (string * val) :=
  map (fun k => (k, or_undef (prop_get k ps))) (key_order (map fst ps)).

Fixpoint json_fuel (fuel : nat) (h : list cell) (v : val)
  : result (option string) :=
  match v with
  | VUndef | VFun _ => Ok None
  | VNull => Ok (Some "null")
  | VBool b => Ok (Some (if b then "true" else "false"))
  | VNum n => Ok (Some (Text.dec n))
  | VStr s => Ok (Some (Text.json_quote s))
  | VRef l =>
      match fuel with
      | 0 => Throw (TypeError "Converting circular structure to JSON")
      | S f =>
          match h !! l with
          | None => Throw (TypeError "Converting circular structure to JSON")
          | Some (CProxy t _ _) => json_fuel f h (VRef t)
          | Some (CObj o) =>
              match o_kind o with
              | KDate iso => Ok (Some (Text.json_quote iso))
              | KArray =>
                  match json_items
                          (map (fun kv => json_fuel f h (snd kv))
                               (ordered_props (o_props o)))
                  with
                  | Throw e => Throw e
                  | Ok l => Ok (Some ("[" +:+ Text.join "," l +:+ "]"))
                  end
              | _ =>
                  match json_members
                          (map (fun kv => (fst kv, json_fuel f h (snd kv)))
                               (ordered_props (o_props o)))
                  with
                  | Throw e => Throw e
                  | Ok l => Ok (Some ("{" +:+ Text.join "," l +:+ "}"))
                  end
              end
          end
      end
  end.

Definition json (h : list cell) (v : val) : result (option string) :=
  json_fuel (S (length h)) h v.

Definition sample_stringify (v : val) (h : list cell)
  : result (option string) * list cell :=
  (json h v, h).

Definition demo_realm : realm :=
  {| exotic := sample_exotic;
     accessor_get := sample_getter;
     accessor_set := sample_setter;
     primitive_get := fun _ _ => VUndef;
     function_has := fun _ _ => false;
     stringify := sample_stringify;
     component_changed := fun _ _ _ _ _ => ret tt;
     component_update := fun _ => ret tt;
     refresh_components := ret tt;
     state_watchers := fun _ => ret tt;
     hooks := fun _ => [];
     process_root := fun _ _ w => (Ok (rootInnerHTML (eng w)), w) |}.

(** A host whose compiled expressions read the expression as a path in the
    data context, with no filters. *)
Definition demo_host : host :=
  {| number_text := Text.dec;
     object_text := fun _ _ => "[object Object]";
     function_text := fun _ => "function () { }";
     compile_scoped :=
       fun e baseDataContext _ _ =>
         ret (_getValueByPath demo_realm baseDataContext (VStr e));
     template_context_entries := fun _ => ret [];
     filter_args := fun _ _ => ret [];
     filters := fun _ => None |}.

(** ** Sample worlds *)

(** A fresh engine: the root data target is cell 0 and its wrapper cell 1,
    [globalData] is cells 2 and 3, [$state] cells 4 and 5. *)
Definition demo_world : world :=
  match constructor demo_realm (Some "<p>{{ title }}</p>") default_options with
  | Ok w => w
  | Throw _ =>
      {| heap := []; trace := []; microtasks := []; classes := [];
         eng := {| opts := default_options; root := false;
                   rootInnerHTML := ""; _originalRootTemplate := "";
                   _currentRootData := VUndef;
                   _currentRootDataTarget := VUndef;
                   _currentRootTemplateString := VUndef;
                   _rootRerenderScheduled := false;
                   renders := 0; state := VUndef; globalData := VUndef |} |}
  end.

(** [applyData(Object.freeze({ user: { name: "Ada" } }))] on a fresh
    engine: the child is cell 6, the frozen object cell 7, its reactive
    wrapper cell 8. *)
Definition frozen_world : world :=
  snd (applyData demo_realm (VRef 7) VNull
         (set_heap
            (heap demo_world
             ++ [CObj (Obj KPlain false [("name", VStr "Ada")]);
                 CObj (Obj KPlain true [("user", VRef 6)])])
            demo_world)).

(** A mounted component [<x-card title="Hi">] with data [{ count: 0 }]:
    data target 6 and its wrapper 7, props target 8 and its wrapper 9, the
    loop scope 10, the host element 11, the instance 12. *)
Definition component_heap (destroyed : bool) : list cell :=
  [CObj (Obj KPlain false [("count", VNum 0)]);
   CProxy 6 (CbHost 1) "<x-card>._componentData";
   CObj (Obj KPlain false [("title", VStr "Hi")]);
   CProxy 8 (CbHost 0) "<x-card>.$props";
   CObj (Obj KPlain false []);
   CObj (Obj KNode false []);
   CObj (Obj KPlain false
           [("_componentData", VRef 7); ("$props", VRef 9);
            ("_parentLoopScope", VRef 10); ("$el", VRef 11);
            ("_mounted", VBool true); ("_destroyed", VBool destroyed)])].

Definition component_world : world :=
  set_heap (heap demo_world ++ component_heap false) demo_world.

Definition destroyed_world : world :=
  set_heap (heap demo_world ++ component_heap true) demo_world.

Definition x_card (withData : bool) : componentDef :=
  {| _name := "x-card"; data_is_function := withData |}.

(** An object that is its own property: [o.a = o]. *)
Definition cyclic_world : world :=
  set_heap (heap demo_world ++ [CObj (Obj KPlain false [("a", VRef 6)])])
    demo_world.

(** Text made of white space only. *)
Fixpoint all_space (s : string) : bool :=
  match s with
  | "" => true
  | String a r => Text.is_space a && all_space r
  end.

(** ** A fetch directive on the root

    [<div data-fetch="/api/users/{{ id }}" data-fetch-as="user"
          data-fetch-loading-class="loading" data-fetch-error-class="failed">]
    rendered against the root data.  Cells 6 and 7 are the elements of two
    successive renders, cell 8 the [Error] a failed request is rejected
    with. *)
Definition fetch_world : world :=
  set_heap
    (heap demo_world
     ++ [CObj (Obj KNode false []);
         CObj (Obj KNode false []);
         CObj (Obj KInstance false
                 [("message", VStr "HTTP error 500: Internal Server Error")])])
    demo_world.

Definition user_attrs : fetchAttributes :=
  {| data_fetch := VStr "/api/users/{{ id }}";
     data_fetch_as := VStr "user";
     data_fetch_method := VNull;
     data_fetch_loading_class := VStr "loading";
     data_fetch_error_class := VStr "failed";
     data_fetch_cache := VNull |}.

(** The root data gets a new [id] and the directive is processed on the
    element of the next render. *)
Definition render_user (id : Z) (element : nat) : M (option fetchRequest) :=
  set_prop demo_realm (VRef 1) "id" (VNum id) ;;;
  _processFetchDirective demo_host demo_realm element user_attrs (VRef 1)
    VNull VUndef.

(** The request for user 1 is in flight. *)
Definition fetching_world : world := snd (render_user 1 6 fetch_world).

(** The request for user 2 has been started before the first one settled. *)
Definition superseded_world : world := snd (render_user 2 7 fetching_world).

(** The first request: its state container is the reactive wrapper in
    cell 11 of the object in cell 10. *)
Definition first_request : fetchRequest :=
  {| fetchUrl := "/api/users/1";
     fetchMethod := "GET";
     node := 6;
     fetchStateContainer := VRef 11;
     fetchRequestId := request_id "/api/users/1" "GET";
     fetchLoadingClass := VStr "loading";
     fetchErrorClass := VStr "failed" |}.

Definition http_error : exn := Thrown (VRef 8).

(** A page whose root template holds that directive: rendering the root
    processes it on the element in cell 6. *)
Definition fetch_realm : realm :=
  {| exotic := sample_exotic;
     accessor_get := sample_getter;
     accessor_set := sample_setter;
     primitive_get := fun _ _ => VUndef;
     function_has := fun _ _ => false;
     stringify := sample_stringify;
     component_changed := fun _ _ _ _ _ => ret tt;
     component_update := fun _ => ret tt;
     refresh_components := ret tt;
     state_watchers := fun _ => ret tt;
     hooks := fun _ => [];
     process_root :=
       fun _ data =>
         _processFetchDirective demo_host demo_realm 6 user_attrs data
           VNull VUndef ;;;
         fun w => (Ok (rootInnerHTML (eng w)), w) |}.

(** ** Proof steps *)

(** Run the first computation of a sequence, given what it returns. *)
Ltac step_with H := unfold bind at 1; rewrite H; cbv beta iota.

(** Inclusion between two explicit lists of keys. *)
Ltac incl_keys := intros ? ?; simpl in *; unfold marker; intuition.
(** * Sanity checks of the model *)

Example split_dotted : Text.split "."%char "a.b.c" = ["a"; "b"; "c"].
Proof. reflexivity. Qed.

Example split_dot : Text.split "."%char "." = [""; ""].
Proof. reflexivity. Qed.

Example trim_blank : Text.trim "  " = "".
Proof. reflexivity. Qed.

Example escape_bold :
  Text.html_escape "<b>x</b>" = "&lt;b&gt;x&lt;/b&gt;".
Proof. reflexivity. Qed.

Example demo_world_root : _currentRootData (eng demo_world) = VRef 1.
Proof. reflexivity. Qed.

Example demo_world_heap :
  heap demo_world =
    [CObj (Obj KPlain false []); CProxy 0 CbRoot "_currentRootData_initial";
     CObj (Obj KPlain false []); CProxy 2 cb_globalData "globalData";
     CObj (Obj KPlain false []); CProxy 4 cb_state "$state"].
Proof. reflexivity. Qed.

(** Keys are listed as JavaScript lists them: indices first, ascending. *)
Example key_order_sample :
  key_order ["b"; "10"; "a"; "2"; "01"] = ["2"; "10"; "b"; "a"; "01"].
Proof. reflexivity. Qed.

(** Reading through the prototype chain: a fresh object answers
    [toString] without having it. *)
Example inherited_member_is_read :
  fst (get_prop demo_realm (VRef 0) "toString" demo_world) = Ok (VFun 6)
  /\ fst (has_prop demo_realm (VRef 0) "toString" demo_world) = Ok true
  /\ own_has (heap demo_world) 0 "toString" = false.
Proof. repeat split. Qed.

(** ** Basic facts about property lists *)

Lemma prop_get_set_eq (k : string) (v : val) (ps : list (string * val)) :
  prop_get k (prop_set k v ps) = Some v.
Proof.
  induction ps as [|[k' v'] ps IH]; simpl.
  - now rewrite String.eqb_refl.
  - destruct (String.eqb k k') eqn:E; simpl.
    + now rewrite String.eqb_refl.
    + now rewrite E.
Qed.

Lemma prop_get_set_ne (k k' : string) (v : val) (ps : list (string * val)) :
  k <> k' -> prop_get k' (prop_set k v ps) = prop_get k' ps.
Proof.
  intros Hne. induction ps as [|[k0 v0] ps IH]; simpl.
  - destruct (String.eqb k' k) eqn:E; [|reflexivity].
    apply String.eqb_eq in E. congruence.
  - destruct (String.eqb k k0) eqn:E; simpl.
    + apply String.eqb_eq in E. subst k0.
      destruct (String.eqb k' k) eqn:E'; [|reflexivity].
      apply String.eqb_eq in E'. congruence.
    + destruct (String.eqb k' k0); [reflexivity|exact IH].
Qed.

Lemma own_get_write_eq (h : list cell) (l : loc) (k : string) (v : val)
  (o : object) :
  h !! l = Some (CObj o) ->
  own_get (write_slot l k v o h) l k = v.
Proof.
  intros Hl. unfold own_get, write_slot.
  rewrite list_lookup_insert_eq by (eapply lookup_lt_Some; eauto).
  simpl. now rewrite prop_get_set_eq.
Qed.

Lemma write_slot_length (h : list cell) (l : loc) (k : string) (v : val)
  (o : object) :
  length (write_slot l k v o h) = length h.
Proof. unfold write_slot. now rewrite length_insert. Qed.

Lemma write_slot_lookup (h : list cell) (l : loc) (k : string) (v : val)
  (o : object) :
  h !! l = Some (CObj o) ->
  write_slot l k v o h !! l
  = Some (CObj (with_props o (prop_set k v (o_props o)))).
Proof.
  intros Hl. unfold write_slot.
  now rewrite list_lookup_insert_eq by (eapply lookup_lt_Some; eauto).
Qed.

Lemma write_slot_lookup_ne (h : list cell) (l l' : loc) (k : string) (v : val)
  (o : object) :
  l <> l' -> write_slot l k v o h !! l' = h !! l'.
Proof. intros Hne. unfold write_slot. now rewrite list_lookup_insert_ne. Qed.

(** ** Reading and writing ordinary slots *)

Section Slots.
Variable R : realm.

Lemma data_slot_plain (l : loc) (o : object) (k : string) :
  plain_slot R l o k = true -> data_slot R l o k = true.
Proof.
  unfold plain_slot, data_slot. destruct (prop_get k (o_props o)); auto.
  destruct (exotic R l (o_kind o) k) as [[]|]; auto; discriminate.
Qed.

Lemma plain_key_slot (l : loc) (o : object) (k : string) :
  plain_key R k -> plain_slot R l o k = true.
Proof.
  intros Hk. unfold plain_slot. rewrite Hk. now destruct (prop_get _ _).
Qed.

Lemma slot_value_plain (l : loc) (o : object) (k : string) :
  plain_slot R l o k = true ->
  slot_value R l o k = or_undef (prop_get k (o_props o)).
Proof.
  unfold plain_slot, slot_value. destruct (prop_get k (o_props o)); auto.
  destruct (exotic R l (o_kind o) k) as [[]|]; auto; discriminate.
Qed.

Lemma obj_get_own (w : world) (l : loc) (o : object) (k : string) (v : val) :
  heap w !! l = Some (CObj o) ->
  prop_get k (o_props o) = Some v ->
  obj_get R l k w = (Ok v, w).
Proof. intros Hl Hk. unfold obj_get. now rewrite Hl, Hk. Qed.

Lemma obj_get_slot (w : world) (l : loc) (o : object) (k : string) :
  heap w !! l = Some (CObj o) ->
  data_slot R l o k = true ->
  obj_get R l k w = (Ok (slot_value R l o k), w).
Proof.
  intros Hl Hk. unfold obj_get, data_slot, slot_value in *. rewrite Hl.
  destruct (prop_get k (o_props o)); [reflexivity|].
  destruct (exotic R l (o_kind o) k) as [[]|]; auto; discriminate.
Qed.

Lemma obj_has_plain (h : list cell) (l : loc) (o : object) (k : string) :
  h !! l = Some (CObj o) ->
  plain_slot R l o k = true ->
  obj_has R h l k = prop_has k (o_props o).
Proof.
  intros Hl Hk. unfold obj_has, plain_slot, prop_has in *. rewrite Hl.
  destruct (prop_get k (o_props o)); [reflexivity|].
  destruct (exotic R l (o_kind o) k); [discriminate|reflexivity].
Qed.

Lemma Reflect_set_slot (w : world) (l : loc) (o : object) (k : string)
  (v : val) :
  heap w !! l = Some (CObj o) ->
  o_frozen o = false ->
  data_slot R l o k = true ->
  Reflect_set R l k v w
  = (Ok true, set_heap (write_slot l k v o (heap w)) w).
Proof.
  intros Hl Hf Hk. unfold Reflect_set, data_slot in *. rewrite Hl, Hf.
  destruct (prop_get k (o_props o)); [reflexivity|].
  destruct (exotic R l (o_kind o) k) as [[? []|]|]; auto; discriminate.
Qed.

Lemma Reflect_set_frozen (w : world) (l : loc) (o : object) (k : string)
  (v : val) :
  heap w !! l = Some (CObj o) ->
  o_frozen o = true ->
  data_slot R l o k = true ->
  Reflect_set R l k v w = (Ok false, w).
Proof.
  intros Hl Hf Hk. unfold Reflect_set, data_slot in *. rewrite Hl, Hf.
  destruct (prop_get k (o_props o)); [reflexivity|].
  destruct (exotic R l (o_kind o) k) as [[? []|]|]; auto; discriminate.
Qed.

Lemma get_prop_own (w : world) (l : loc) (o : object) (k : string) (v : val) :
  heap w !! l = Some (CObj o) ->
  prop_get k (o_props o) = Some v ->
  get_prop R (VRef l) k w = (Ok v, w).
Proof.
  intros Hl Hk. unfold get_prop. rewrite Hl. now apply obj_get_own with o.
Qed.

Lemma get_prop_slot (w : world) (l : loc) (o : object) (k : string) :
  heap w !! l = Some (CObj o) ->
  data_slot R l o k = true ->
  get_prop R (VRef l) k w = (Ok (slot_value R l o k), w).
Proof.
  intros Hl Hk. unfold get_prop. rewrite Hl. now apply obj_get_slot.
Qed.

Lemma set_prop_slot (w : world) (l : loc) (o : object) (k : string)
  (v : val) :
  heap w !! l = Some (CObj o) ->
  o_frozen o = false ->
  data_slot R l o k = true ->
  set_prop R (VRef l) k v w
  = (Ok tt, set_heap (write_slot l k v o (heap w)) w).
Proof.
  intros Hl Hf Hk. unfold set_prop, own_assign, bind. rewrite Hl.
  now rewrite (Reflect_set_slot w l o k v Hl Hf Hk).
Qed.

(** A slot that has been written is an ordinary own data property. *)
Lemma data_slot_written (l : loc) (o : object) (k : string) (v : val) :
  data_slot R l (with_props o (prop_set k v (o_props o))) k = true.
Proof. unfold data_slot. simpl. now rewrite prop_get_set_eq. Qed.

Lemma slot_value_written (l : loc) (o : object) (k : string) (v : val) :
  slot_value R l (with_props o (prop_set k v (o_props o))) k = v.
Proof. unfold slot_value. simpl. now rewrite prop_get_set_eq. Qed.

Lemma data_slot_other (l : loc) (o : object) (k k' : string) (v : val) :
  k <> k' ->
  data_slot R l (with_props o (prop_set k v (o_props o))) k'
  = data_slot R l o k'.
Proof.
  intros Hne. unfold data_slot. simpl. now rewrite prop_get_set_ne.
Qed.

Lemma slot_value_other (l : loc) (o : object) (k k' : string) (v : val) :
  k <> k' ->
  slot_value R l (with_props o (prop_set k v (o_props o))) k'
  = slot_value R l o k'.
Proof.
  intros Hne. unfold slot_value. simpl. now rewrite prop_get_set_ne.
Qed.
End Slots.

(** ** What a callback invocation leaves behind *)

Lemma quiet_bind (m k : M unit) : quiet m -> quiet k -> quiet (m ;;; k).
Proof.
  intros Hm Hk w.
  destruct (Hm w) as (w1 & e1 & R1 & H1 & T1 & F1).
  destruct (Hk w1) as (w2 & e2 & R2 & H2 & T2 & F2).
  exists w2, (e1 ++ e2). unfold bind. rewrite R1, R2.
  split; [reflexivity|]. split; [congruence|]. split.
  - now rewrite T2, T1, <- app_assoc.
  - now apply Forall_app.
Qed.

Lemma quiet_ret : quiet (ret tt).
Proof.
  intros w. exists w, []. rewrite app_nil_r. repeat split. constructor.
Qed.

Lemma quiet_logDebug (msg : string) : quiet (_logDebug msg).
Proof.
  intros w. unfold _logDebug. destruct (debug (opts (eng w))).
  - exists (emit_event (EvDebug msg) w), [EvDebug msg]. repeat split.
    constructor; [exact I|constructor].
  - apply quiet_ret.
Qed.

Lemma quiet_scheduleRootReRender : quiet _scheduleRootReRender.
Proof.
  intros w. unfold _scheduleRootReRender.
  destruct (_rootRerenderScheduled (eng w)); eexists; exists [];
    rewrite app_nil_r; repeat split; constructor.
Qed.

Lemma quiet_fetch_state_changed (R : realm) (fetchAs key : string)
  (c t d : val) :
  truthy c = false ->
  quiet (fetch_state_changed R fetchAs key c t d).
Proof.
  intros Hc. unfold fetch_state_changed.
  apply quiet_bind; [apply quiet_logDebug|].
  intros w. destruct c; try discriminate; unfold bind, ret;
    rewrite andb_false_r;
    match goal with |- context [if ?c then _ else _] => destruct c end;
    solve [apply quiet_scheduleRootReRender | apply quiet_ret].
Qed.

Lemma not_call_below (n : nat) (evs : list event) :
  Forall not_call evs -> Forall (below_depth n) evs.
Proof.
  intros H. eapply List.Forall_impl; [|exact H].
  intros [] He; simpl in *; auto; contradiction.
Qed.

Lemma invoke_quiet_body (cb : callback) (body : M unit) (t : loc)
  (k : string) (v old : val) (w : world) :
  quiet body ->
  exists w' evs,
    body (emit_event (EvCall cb t k v old (own_get (heap w) t k)) w)
      = (Ok tt, w')
    /\ heap w' = heap w
    /\ trace w' = trace w ++ EvCall cb t k v old (own_get (heap w) t k) :: evs
    /\ Forall (below_depth (cb_depth cb)) evs.
Proof.
  intros Hq.
  destruct (Hq (emit_event (EvCall cb t k v old (own_get (heap w) t k)) w))
    as (w' & evs & Hr & Hh & Ht & Hf).
  exists w', evs. split; [exact Hr|]. split; [exact Hh|]. split.
  - rewrite Ht. simpl. now rewrite <- app_assoc.
  - now apply not_call_below.
Qed.

(** A key no object answers beyond its own data property is read from the
    slot. *)
Lemma obj_get_plain_key (R : realm) (l : loc) (k : string) (w : world) :
  plain_key R k -> obj_get R l k w = (Ok (own_get (heap w) l k), w).
Proof.
  intros Hk. unfold obj_get, own_get.
  destruct (heap w !! l) as [[o|? ? ?]|]; try reflexivity.
  destruct (prop_get k (o_props o)); [reflexivity|]. now rewrite Hk.
Qed.

(** A callback that only logs and schedules: the invocation is recorded,
    with the invocations of the callbacks behind it (which are closer to
    the root), and the heap is left alone. *)
Lemma invoke_spec (R : realm) (cb : callback) :
  forall (t : loc) (k : string) (v old : val) (w : world),
    cb_defers cb = true ->
    Forall (plain_key R) (cb_keys cb) ->
    exists w' evs,
      invoke R cb t k v old w = (Ok tt, w')
      /\ heap w' = heap w
      /\ trace w' = trace w ++ EvCall cb t k v old (own_get (heap w) t k) :: evs
      /\ Forall (below_depth (cb_depth cb)) evs.
Proof.
  induction cb as [| | | |fetchAs c tc dc|id|parent IH t' k' orig];
    intros t k v old w Hd Hkeys; simpl in Hd; try discriminate.
  - (* the root callback logs and schedules *)
    apply invoke_quiet_body. unfold _rootDataUpdateCallback.
    apply quiet_bind; [apply quiet_logDebug|apply quiet_scheduleRootReRender].
  - (* the callback of a fetch-state container outside a component *)
    apply invoke_quiet_body. apply quiet_fetch_state_changed.
    now apply negb_true_iff in Hd.
  - simpl in Hkeys. apply Forall_cons in Hkeys as [Hk' Hkeys].
    cbn [invoke]. unfold bind.
    rewrite (obj_get_plain_key R t' k' _ Hk'). cbn [heap emit_event].
    destruct (IH t' k'
                (own_get (heap w) t' k') orig
                (emit_event
                   (EvCall (CbNested parent t' k' orig) t k v old
                      (own_get (heap w) t k)) w) Hd Hkeys)
      as (w' & evs & Hrun & Hheap & Htr & Hbelow).
    simpl in *. rewrite Hrun.
    exists w', (EvCall parent t' k' (own_get (heap w) t' k') orig
                  (own_get (heap w) t' k') :: evs).
    split; [reflexivity|]. split; [exact Hheap|]. split.
    + rewrite Htr. now rewrite <- app_assoc.
    + constructor.
      * simpl. lia.
      * eapply List.Forall_impl; [|exact Hbelow].
        intros [] He; simpl in *; auto; lia.
Qed.

Lemma calls_of_below (cb : callback) (evs : list event) :
  Forall (below_depth (cb_depth cb)) evs -> calls_of cb evs = [].
Proof.
  induction 1 as [|e evs He _ IH]; [reflexivity|].
  unfold calls_of in *. simpl. rewrite IH.
  destruct e; simpl in *; try reflexivity.
  destruct (bool_decide (cb0 = cb)) eqn:E; [|reflexivity].
  apply bool_decide_eq_true in E. subst. lia.
Qed.

Lemma calls_of_app (cb : callback) (a b : list event) :
  calls_of cb (a ++ b) = calls_of cb a ++ calls_of cb b.
Proof. unfold calls_of. apply List.filter_app. Qed.

Lemma renders_of_app (a b : list event) :
  renders_of (a ++ b) = renders_of a ++ renders_of b.
Proof. unfold renders_of. apply List.filter_app. Qed.

(** A computation of type [M unit] followed by [ret tt] is itself. *)
Lemma bind_ret_tt (m : M unit) (w : world) : (m ;;; ret tt) w = m w.
Proof. unfold bind, ret. now destruct (m w) as [[[]|e] w']. Qed.

(** * Reactive store *)

(** The [set] trap on an ordinary slot of an extensible target, up to the
    comparison of the two serialisations. *)
Lemma set_trap_stores (R : realm) (w : world) (t : loc) (cb : callback)
  (name key : string) (v : val) (o : object) :
  heap w !! t = Some (CObj o) ->
  o_frozen o = false ->
  data_slot R t o key = true ->
  let old := slot_value R t o key in
  set_trap R t cb name key v w
  = if strict_eq v old && (negb (typeof_object v) || strict_eq v VNull)
    then (Ok true, w)
    else
      ((if negb (Text.startsWith key "_") then
          so <- JSON_stringify R old ;;
          sn <- JSON_stringify R v ;;
          if negb (bool_decide (so = sn)) then
            _logDebug ("Reactive set in " +:+ name +:+ ": " +:+ key) ;;;
            if callback_truthy cb then invoke R cb t key v old else ret tt
          else ret tt
        else ret tt) ;;;
       ret true) (set_heap (write_slot t key v o (heap w)) w).
Proof.
  intros Ht Hf Hk old. unfold set_trap. unfold bind at 1.
  rewrite (obj_get_slot R w t o key Ht Hk). fold old.
  destruct (strict_eq v old && (negb (typeof_object v) || strict_eq v VNull));
    [reflexivity|].
  unfold bind at 1. rewrite (Reflect_set_slot R w t o key v Ht Hf Hk).
  reflexivity.
Qed.

Lemma set_prop_proxy (R : realm) (w : world) (p t : loc) (cb : callback)
  (name key : string) (v : val) :
  heap w !! p = Some (CProxy t cb name) ->
  set_prop R (VRef p) key v w
  = (ok <- set_trap R t cb name key v ;;
     if ok then ret tt
     else throw (TypeError "'set' on proxy: trap returned falsish")) w.
Proof. intros Hp. unfold set_prop. now rewrite Hp. Qed.

(** A trap that ends in [return true] makes the assignment what the trap
    did before. *)
Lemma proxy_assign_result (trap : M bool) (m : M unit) (e : exn)
  (w w0 : world) :
  trap w = (m ;;; ret true) w0 ->
  (ok <- trap ;; if ok then ret tt else throw e) w = m w0.
Proof.
  intros H. unfold bind at 1. rewrite H. unfold bind, ret.
  destruct (m w0) as [[[]|e'] w']; reflexivity.
Qed.

Lemma same_primitive (v old : val) :
  strict_eq v old && (negb (typeof_object v) || strict_eq v VNull)
  = strict_eq v old && negb (is_object v).
Proof.
  destruct v; reflexivity.
Qed.

(** C1 (amended). A write through a reactive container with a callback, to
    a key that does not start with an underscore and is an ordinary slot of
    an extensible target (an own data property, or none yet; no accessor
    and no read-only member).  The old value is what [target[key]] read
    before the write.  Writing the same primitive again does nothing.
    Otherwise the value is stored first and [JSON.stringify] is then taken
    of the old and of the new value; when both return: equal texts end the
    write there, with no callback; different texts are followed by one
    debug line and one invocation of the callback with (target, key, new
    value, old value), and that is all the write does.  For a callback that
    only logs and schedules (the root callback, also behind nested
    wrappers) the trace gains exactly one invocation of it, recorded with
    what the slot holds at that moment. *)
Theorem C1_reactive_write_notifies_once (R : realm)
  (w : world) (p t : loc) (cb : callback) (name key : string) (v : val)
  (o : object) (so sn : option string) :
  heap w !! p = Some (CProxy t cb name) ->
  heap w !! t = Some (CObj o) ->
  o_frozen o = false ->
  data_slot R t o key = true ->
  callback_truthy cb = true ->
  Text.startsWith key "_" = false ->
  let old := slot_value R t o key in
  let stored := write_slot t key v o (heap w) in
  let after_old := stringify R old stored in
  let after_new := stringify R v (snd after_old) in
  let w1 := set_heap (snd after_new) w in
  fst after_old = Ok so ->
  fst after_new = Ok sn ->
  (strict_eq v old && negb (is_object v) = true ->
   set_prop R (VRef p) key v w = (Ok tt, w))
  /\ (strict_eq v old && negb (is_object v) = false ->
      (so = sn -> set_prop R (VRef p) key v w = (Ok tt, w1))
      /\ (so <> sn ->
          set_prop R (VRef p) key v w
          = (_logDebug ("Reactive set in " +:+ name +:+ ": " +:+ key) ;;;
             invoke R cb t key v old) w1
          /\ (cb_defers cb = true ->
              Forall (plain_key R) (cb_keys cb) ->
              exists w',
                set_prop R (VRef p) key v w = (Ok tt, w')
                /\ heap w' = heap w1
                /\ calls_of cb (trace w') =
                     calls_of cb (trace w)
                     ++ [EvCall cb t key v old (own_get (heap w1) t key)]))).
Proof.
  intros Hp Ht Hfrozen Hslot Hcb Hkey old stored after_old after_new w1
    Hso Hsn.
  rewrite (set_prop_proxy R w p t cb name key v Hp).
  pose proof (set_trap_stores R w t cb name key v o Ht Hfrozen Hslot)
    as Htrap.
  cbv zeta in Htrap. fold old stored in Htrap.
  rewrite same_primitive, Hkey, Hcb in Htrap. cbn [negb] in Htrap.
  destruct (strict_eq v old && negb (is_object v)) eqn:Hearly.
  { split; [|discriminate]. intros _. unfold bind. now rewrite Htrap. }
  split; [discriminate|]. intros _.
  assert (Hrun : forall k : M unit,
    (so' <- JSON_stringify R old ;;
     sn' <- JSON_stringify R v ;;
     if negb (bool_decide (so' = sn')) then k else ret tt) (set_heap stored w)
    = (if negb (bool_decide (so = sn)) then k else ret tt) w1).
  { intros k. unfold bind, JSON_stringify, on_heap. cbn [heap set_heap].
    fold after_old. rewrite Hso. cbn [fst snd heap set_heap].
    fold after_new. rewrite Hsn. reflexivity. }
  rewrite (proxy_assign_result _ _ _ _ _ Htrap), Hrun.
  split.
  - intros Heq. rewrite bool_decide_eq_true_2 by exact Heq. reflexivity.
  - intros Hne. rewrite bool_decide_eq_false_2 by exact Hne. cbn [negb].
    split; [reflexivity|].
    intros Hd Hkeys. unfold bind, _logDebug.
    set (w2 := if debug (opts (eng w1))
               then emit_event
                      (EvDebug ("Reactive set in " +:+ name +:+ ": " +:+ key))
                      w1
               else w1).
    assert (Hw2 : heap w2 = heap w1
                  /\ exists pre, trace w2 = trace w ++ pre
                                 /\ calls_of cb pre = []).
    { unfold w2. destruct (debug (opts (eng w1))); simpl.
      - split; [reflexivity|]. eexists. split; reflexivity.
      - split; [reflexivity|]. exists [].
        split; [now rewrite app_nil_r|reflexivity]. }
    destruct Hw2 as (Hheap2 & pre & Htr2 & Hpre).
    destruct (invoke_spec R cb t key v old w2 Hd Hkeys)
      as (w' & evs & Hinv & Hheap & Htr & Hbelow).
    assert (Hstep : (if debug (opts (eng w1))
                     then (Ok tt,
                           emit_event
                             (EvDebug ("Reactive set in " +:+ name +:+ ": "
                                       +:+ key)) w1)
                     else (Ok tt, w1)) = (Ok tt, w2)).
    { unfold w2. now destruct (debug (opts (eng w1))). }
    rewrite Hstep, Hinv.
    exists w'. split; [reflexivity|]. split; [congruence|].
    rewrite Htr, Htr2, Hheap2.
    rewrite <- app_assoc, !calls_of_app, Hpre. simpl.
    unfold calls_of at 2. simpl.
    rewrite bool_decide_eq_true_2 by reflexivity.
    fold (calls_of cb evs). now rewrite (calls_of_below _ _ Hbelow).
Qed.

(** C1, witness: [data.count = 7] on the root data of a fresh engine. *)
Lemma C1_witness :
  let w := demo_world in
  let w1 := set_heap (write_slot 0 "count" (VNum 7) (Obj KPlain false [])
                        (heap demo_world)) demo_world in
  (strict_eq (VNum 7) VUndef && negb (is_object (VNum 7)) = true ->
   set_prop demo_realm (VRef 1) "count" (VNum 7) w = (Ok tt, w))
  /\ (strict_eq (VNum 7) VUndef && negb (is_object (VNum 7)) = false ->
      (None = Some "7" ->
       set_prop demo_realm (VRef 1) "count" (VNum 7) w = (Ok tt, w1))
      /\ (None <> Some "7" ->
          set_prop demo_realm (VRef 1) "count" (VNum 7) w
          = (_logDebug ("Reactive set in " +:+ "_currentRootData_initial"
                        +:+ ": " +:+ "count") ;;;
             invoke demo_realm CbRoot 0 "count" (VNum 7) VUndef) w1
          /\ (cb_defers CbRoot = true ->
              Forall (plain_key demo_realm) (cb_keys CbRoot) ->
              exists w',
                set_prop demo_realm (VRef 1) "count" (VNum 7) w = (Ok tt, w')
                /\ heap w' = heap w1
                /\ calls_of CbRoot (trace w') =
                     calls_of CbRoot (trace w)
                     ++ [EvCall CbRoot 0 "count" (VNum 7) VUndef
                           (own_get (heap w1) 0 "count")]))).
Proof.
  apply (C1_reactive_write_notifies_once demo_realm demo_world 1 0 CbRoot
           "_currentRootData_initial" "count" (VNum 7)
           (Obj KPlain false []) None (Some "7")); reflexivity.
Defined.

(** C1 as stated fails: [data._draft = 7] on the root data of a fresh
    engine stores a value that differs from the old one, [undefined], in
    structure and in JSON text, and no callback is invoked. *)
Lemma C1_underscore_key_is_silent :
  let r := set_prop demo_realm (VRef 1) "_draft" (VNum 7) demo_world in
  fst r = Ok tt
  /\ own_get (heap demo_world) 0 "_draft" = VUndef
  /\ own_get (heap (snd r)) 0 "_draft" = VNum 7
  /\ fst (stringify demo_realm VUndef (heap (snd r)))
     <> fst (stringify demo_realm (VNum 7) (heap (snd r)))
  /\ trace (snd r) = trace demo_world.
Proof. vm_compute. repeat split. discriminate. Qed.

(** The old value is what the read gave, an inherited member included, and
    the comparison is one of serialisations: a function replaced by a value
    that has a text is a change. *)
Example inherited_old_value :
  let r := set_prop demo_realm (VRef 1) "toString" (VNum 7) demo_world in
  calls_of CbRoot (trace (snd r))
  = [EvCall CbRoot 0 "toString" (VNum 7) (VFun 6) (VNum 7)].
Proof. vm_compute. reflexivity. Qed.

(** C6 (code defect). The container made by
    [applyData(Object.freeze({ user: { name: "Ada" } }))] holds a plain
    object under [user].  Reading that property does not return a wrapper,
    once or twice: the trap builds the wrapper and then fails to store it
    in the frozen target, so every read throws a [TypeError]. *)
Theorem C6_frozen_container_read_throws :
  _currentRootData (eng frozen_world) = VRef 8
  /\ heap frozen_world !! 8 =
       Some (CProxy 7 CbRoot "_currentRootData_userProvided")
  /\ own_get (heap frozen_world) 7 "user" = VRef 6
  /\ heap frozen_world !! 6 =
       Some (CObj (Obj KPlain false [("name", VStr "Ada")]))
  /\ fst (get_prop demo_realm (VRef 8) "user" frozen_world)
     = Throw (TypeError "Cannot assign to read only property")
  /\ fst (get_prop demo_realm (VRef 8) "user"
            (snd (get_prop demo_realm (VRef 8) "user" frozen_world)))
     = Throw (TypeError "Cannot assign to read only property").
Proof. vm_compute. repeat split. Qed.

(** On an extensible target the same read returns the wrapper, and the
    second read returns it again without making another. *)
Example repeated_read_same_wrapper :
  let w := set_heap (write_slot 0 "user" (VRef 6) (Obj KPlain false [])
                       (heap demo_world ++ [CObj (Obj KPlain false [])]))
             demo_world in
  let r1 := get_prop demo_realm (VRef 1) "user" w in
  let r2 := get_prop demo_realm (VRef 1) "user" (snd r1) in
  fst r1 = Ok (VRef 7)
  /\ heap (snd r1) !! 7 =
       Some (CProxy 6 (CbNested CbRoot 0 "user" (VRef 6))
               "_currentRootData_initial.user")
  /\ r2 = (Ok (VRef 7), snd r1).
Proof. vm_compute. repeat split. Qed.

(** A frozen nested object is left as it is: the read returns the object
    itself and no wrapper is made. *)
Example frozen_child_not_wrapped :
  let w := set_heap (write_slot 0 "cfg" (VRef 6) (Obj KPlain false [])
                       (heap demo_world ++ [CObj (Obj KPlain true [])]))
             demo_world in
  get_prop demo_realm (VRef 1) "cfg" w = (Ok (VRef 6), w).
Proof. vm_compute. reflexivity. Qed.
(** * Computations on the heap alone *)

Lemma heap_only_ret {A : Type} (a : A) : heap_only (ret a).
Proof. intros w. exists (heap w). now destruct w. Qed.

Lemma heap_only_throw {A : Type} (e : exn) : heap_only (@throw A e).
Proof. intros w. exists (heap w). now destruct w. Qed.

Lemma heap_only_bind {A B : Type} (m : M A) (f : A -> M B) :
  heap_only m -> (forall a, heap_only (f a)) -> heap_only (bind m f).
Proof.
  intros Hm Hf w. unfold bind. destruct (Hm w) as [h Hh].
  destruct (m w) as [[a|e] w']; simpl in Hh; subst w'; [|now exists h].
  destruct (Hf a (set_heap h w)) as [h' Hh']. exists h'. now rewrite Hh'.
Qed.

Lemma heap_only_if {A : Type} (b : bool) (m1 m2 : M A) :
  heap_only m1 -> heap_only m2 -> heap_only (if b then m1 else m2).
Proof. now destruct b. Qed.

Lemma heap_only_on_heap {A : Type} (f : list cell -> result A * list cell) :
  heap_only (on_heap f).
Proof. intros w. now eexists. Qed.

Lemma heap_only_here {A : Type} (r : result A) (w : world) :
  exists h, snd (r, w) = set_heap h w.
Proof. exists (heap w). now destruct w. Qed.

Section HeapOnly.
Variable R : realm.

Lemma heap_only_obj_get (l : loc) (k : string) : heap_only (obj_get R l k).
Proof.
  intros w. unfold obj_get.
  destruct (heap w !! l) as [[o|? ? ?]|]; try apply heap_only_here.
  destruct (prop_get k (o_props o)); [apply heap_only_here|].
  destruct (exotic R l (o_kind o) k) as [[]|]; try apply heap_only_here.
  apply heap_only_on_heap.
Qed.

Lemma heap_only_Reflect_set (l : loc) (k : string) (v : val) :
  heap_only (Reflect_set R l k v).
Proof.
  intros w. unfold Reflect_set.
  destruct (heap w !! l) as [[o|? ? ?]|]; try apply heap_only_here.
  assert (Hstore : exists h,
    snd (if o_frozen o then (Ok false, w)
         else (Ok true, set_heap (write_slot l k v o (heap w)) w))
    = set_heap h w).
  { destruct (o_frozen o); [apply heap_only_here|now eexists]. }
  destruct (prop_get k (o_props o)); [exact Hstore|].
  destruct (exotic R l (o_kind o) k) as [[? []|]|]; try exact Hstore;
    try apply heap_only_here.
  apply heap_only_on_heap.
Qed.

Lemma heap_only_own_assign (l : loc) (k : string) (v : val) :
  heap_only (own_assign R l k v).
Proof.
  apply heap_only_bind; [apply heap_only_Reflect_set|].
  intros []; [apply heap_only_ret|apply heap_only_throw].
Qed.

Lemma heap_only_Reflect_deleteProperty (l : loc) (k : string) :
  heap_only (Reflect_deleteProperty l k).
Proof.
  intros w. unfold Reflect_deleteProperty.
  destruct (heap w !! l) as [[o|? ? ?]|]; try apply heap_only_here.
  destruct (o_frozen o && prop_has k (o_props o));
    [apply heap_only_here|now eexists].
Qed.

Lemma heap_only_alloc (c : cell) : heap_only (alloc c).
Proof. intros w. now eexists. Qed.

Lemma heap_only_new_object : heap_only new_object.
Proof.
  apply heap_only_bind; [apply heap_only_alloc|intros; apply heap_only_ret].
Qed.

Lemma heap_only_reactive_flag (v : val) : heap_only (reactive_flag R v).
Proof.
  intros w. unfold reactive_flag. destruct v; try apply heap_only_here.
  destruct (heap w !! l) as [[o|? ? ?]|]; try apply heap_only_here;
    apply heap_only_obj_get.
Qed.

Lemma heap_only_makeReactive (obj : val) (cb : callback) (name : string) :
  heap_only (_makeReactive R obj cb name).
Proof.
  unfold _makeReactive. apply heap_only_bind.
  - apply heap_only_if; [apply heap_only_reactive_flag|apply heap_only_ret].
  - intros flag. apply heap_only_if; [apply heap_only_ret|].
    destruct obj; try apply heap_only_ret.
    apply heap_only_bind; [apply heap_only_alloc|intros; apply heap_only_ret].
Qed.

Lemma heap_only_wrappable (v : val) : heap_only (wrappable R v).
Proof.
  unfold wrappable. apply heap_only_if; [|apply heap_only_ret].
  apply heap_only_bind; [apply heap_only_reactive_flag|].
  intros flag w. apply heap_only_here.
Qed.

Lemma heap_only_get_trap (t : loc) (cb : callback) (name key : string) :
  heap_only (get_trap R t cb name key).
Proof.
  unfold get_trap.
  destruct (String.eqb key "_isReactiveProxy"); [apply heap_only_ret|].
  destruct (String.eqb key "_reactiveTarget"); [apply heap_only_ret|].
  apply heap_only_bind; [apply heap_only_obj_get|intros value].
  apply heap_only_bind; [apply heap_only_wrappable|intros wrap].
  apply heap_only_bind; [|intros; apply heap_only_obj_get].
  apply heap_only_if; [|apply heap_only_ret].
  apply heap_only_bind; [apply heap_only_obj_get|intros current].
  apply heap_only_if; [|apply heap_only_ret].
  apply heap_only_bind;
    [apply heap_only_makeReactive|intros; apply heap_only_own_assign].
Qed.

Lemma heap_only_get_prop (v : val) (k : string) : heap_only (get_prop R v k).
Proof.
  intros w. unfold get_prop. destruct v; try apply heap_only_here.
  destruct (heap w !! l) as [[o|t cb name]|];
    try apply heap_only_obj_get.
  apply heap_only_get_trap.
Qed.

Lemma heap_only_has_prop (v : val) (k : string) : heap_only (has_prop R v k).
Proof.
  intros w. unfold has_prop. destruct v; try apply heap_only_here.
  destruct (heap w !! l) as [[o|t cb name]|]; apply heap_only_here.
Qed.

Lemma heap_only_JSON_stringify (v : val) : heap_only (JSON_stringify R v).
Proof. apply heap_only_on_heap. Qed.
End HeapOnly.

(** * Root render scheduler *)

Lemma sched_step_refl (w : world) : sched_step w w.
Proof.
  constructor; auto.
  exists []. rewrite app_nil_r. repeat split; auto; try (intros H; now elim H).
Qed.

Lemma sched_step_trans (w1 w2 w3 : world) :
  sched_step w1 w2 -> sched_step w2 w3 -> sched_step w1 w3.
Proof.
  intros [R1 (e1 & T1 & N1 & C1) F1 I1] [R2 (e2 & T2 & N2 & C2) F2 I2].
  constructor; auto.
  - congruence.
  - exists (e1 ++ e2). rewrite T2, T1, <- app_assoc.
    split; [reflexivity|]. split.
    + now rewrite renders_of_app, N1, N2.
    + rewrite calls_of_app. intros Hc.
      destruct (calls_of CbRoot e2) eqn:E2.
      * rewrite app_nil_r in Hc. auto.
      * apply C2. discriminate.
Qed.

Lemma steps_ret {A : Type} (a : A) : steps (ret a).
Proof. intros w. apply sched_step_refl. Qed.

Lemma steps_throw {A : Type} (e : exn) : steps (@throw A e).
Proof. intros w. apply sched_step_refl. Qed.

Lemma steps_bind {A B : Type} (m : M A) (f : A -> M B) :
  steps m -> (forall a, steps (f a)) -> steps (bind m f).
Proof.
  intros Hm Hf w. unfold bind. specialize (Hm w).
  destruct (m w) as [[a|e] w']; simpl in *; [|exact Hm].
  eapply sched_step_trans; [exact Hm|apply Hf].
Qed.

Lemma steps_if {A : Type} (b : bool) (m1 m2 : M A) :
  steps m1 -> steps m2 -> steps (if b then m1 else m2).
Proof. now destruct b. Qed.

(** An effect on the heap alone. *)
Lemma sched_step_heap (h : list cell) (w : world) : sched_step w (set_heap h w).
Proof.
  constructor; auto.
  exists []. simpl. rewrite app_nil_r.
  repeat split; auto; try (intros H; now elim H).
Qed.

Lemma steps_heap_only {A : Type} (m : M A) : heap_only m -> steps m.
Proof.
  intros Hm w. destruct (Hm w) as [h ->]. apply sched_step_heap.
Qed.

(** Emitting an event that is neither a render nor a root callback call. *)
Lemma sched_step_emit (e : event) (w : world) :
  is_render e = false -> is_call_of CbRoot e = false ->
  sched_step w (emit_event e w).
Proof.
  intros Hr Hc. constructor; auto.
  exists [e]. simpl. unfold renders_of, calls_of. simpl. rewrite Hr, Hc.
  repeat split; auto; try (intros H; now elim H).
Qed.

Lemma steps_logDebug (msg : string) : steps (_logDebug msg).
Proof.
  intros w. unfold _logDebug. destruct (debug (opts (eng w))); simpl.
  - now apply sched_step_emit.
  - apply sched_step_refl.
Qed.

Lemma sched_step_emit_root_call (t : loc) (k : string) (v old seen : val)
  (w w' : world) :
  sched_step (emit_event (EvCall CbRoot t k v old seen) w) w' ->
  _rootRerenderScheduled (eng w') = true ->
  sched_step w w'.
Proof.
  intros [R (e & T & N & C) F I] Hflag. constructor; auto.
  exists (EvCall CbRoot t k v old seen :: e). simpl in T.
  rewrite T, <- app_assoc. split; [reflexivity|]. split.
  - unfold renders_of in *. simpl. exact N.
  - intros _. exact Hflag.
Qed.

Lemma steps_scheduleRootReRender : steps _scheduleRootReRender.
Proof.
  intros w. unfold _scheduleRootReRender.
  destruct (_rootRerenderScheduled (eng w)) eqn:Hs; simpl;
    [apply sched_step_refl|].
  constructor; simpl; auto.
  - exists []. rewrite app_nil_r. repeat split; auto;
      try (intros H; now elim H).
  - unfold sched_inv. simpl. rewrite Hs. intros ->. reflexivity.
Qed.

Lemma scheduleRootReRender_flag (w : world) :
  _rootRerenderScheduled (eng (snd (_scheduleRootReRender w))) = true.
Proof.
  unfold _scheduleRootReRender.
  now destruct (_rootRerenderScheduled (eng w)) eqn:Hs.
Qed.

Lemma logDebug_spec (msg : string) (w : world) :
  exists w',
    _logDebug msg w = (Ok tt, w')
    /\ heap w' = heap w /\ eng w' = eng w /\ microtasks w' = microtasks w
    /\ renders_of (trace w') = renders_of (trace w).
Proof.
  unfold _logDebug. destruct (debug (opts (eng w))); eexists;
    (split; [reflexivity|]); simpl; rewrite ?renders_of_app; simpl;
    rewrite ?app_nil_r; auto.
Qed.

Lemma steps_when (b : bool) (m : M unit) : steps m -> steps (when b m).
Proof. intros H. destruct b; [exact H|apply steps_ret]. Qed.

Section Steps.
Variable R : realm.
Hypothesis page : page_steps R.

Lemma steps_updateComponents :
  steps (_updateComponentsUsingGlobalStateOrGlobalData R).
Proof.
  unfold _updateComponentsUsingGlobalStateOrGlobalData.
  apply steps_bind; [apply steps_logDebug|intros _].
  apply steps_bind; [apply (ps_refresh R page)|intros _].
  intros w. cbv zeta.
  match goal with |- context [if ?c then _ else _] => destruct c end;
    [|apply sched_step_refl].
  apply steps_bind; [apply steps_logDebug|intros _].
  apply steps_scheduleRootReRender.
Qed.

Lemma steps_fetch_state_changed (fetchAs key : string) (c t d : val) :
  steps (fetch_state_changed R fetchAs key c t d).
Proof.
  unfold fetch_state_changed.
  apply steps_bind; [apply steps_logDebug|intros _].
  apply steps_bind.
  { destruct c; try apply steps_ret.
    apply steps_bind; [|intros; apply steps_ret].
    apply steps_heap_only, heap_only_obj_get. }
  intros mounted. apply steps_if; [apply (ps_update R page)|].
  intros w.
  match goal with |- context [if ?c then _ else _] => destruct c end;
    [apply steps_scheduleRootReRender|apply sched_step_refl].
Qed.

Lemma steps_after_call (cb : callback) (t : loc) (k : string)
  (v old seen : val) (body : M unit) (w : world) :
  is_call_of CbRoot (EvCall cb t k v old seen) = false ->
  steps body ->
  sched_step w (snd (body (emit_event (EvCall cb t k v old seen) w))).
Proof.
  intros Hcb Hbody.
  eapply sched_step_trans; [|apply Hbody].
  now apply sched_step_emit.
Qed.

Lemma steps_invoke (cb : callback) :
  forall (t : loc) (k : string) (v old : val), steps (invoke R cb t k v old).
Proof.
  induction cb as [| | | |fetchAs c tc dc|id|parent IH t' k' orig];
    intros t k v old w; cbn [invoke].
  - apply sched_step_refl.
  - (* the root callback: the call is recorded, then the flag is raised *)
    eapply sched_step_emit_root_call.
    + unfold _rootDataUpdateCallback.
      apply steps_bind; [apply steps_logDebug|intros _].
      apply steps_scheduleRootReRender.
    + unfold _rootDataUpdateCallback, bind.
      match goal with
      | |- context [_logDebug ?m ?x] =>
          destruct (logDebug_spec m x) as (wb & Hb & _); rewrite Hb
      end.
      apply scheduleRootReRender_flag.
  - apply steps_after_call; [reflexivity|].
    apply steps_bind; [apply steps_logDebug|intros _].
    apply steps_updateComponents.
  - apply steps_after_call; [reflexivity|].
    apply steps_bind; [apply steps_logDebug|intros _].
    apply steps_bind; [apply (ps_watchers R page)|intros _].
    apply steps_updateComponents.
  - apply steps_after_call; [reflexivity|].
    apply steps_fetch_state_changed.
  - apply steps_after_call; [reflexivity|]. apply (ps_changed R page).
  - apply steps_after_call; [reflexivity|].
    apply steps_bind; [apply steps_heap_only, heap_only_obj_get|].
    intros current. apply IH.
Qed.

Lemma steps_notify (b : bool) (cb : callback) (key msg : string)
  (t : loc) (v old : val) :
  steps (if b
         then _logDebug msg ;;;
              (if callback_truthy cb then invoke R cb t key v old
               else ret tt)
         else ret tt).
Proof.
  apply steps_if; [|apply steps_ret].
  apply steps_bind; [apply steps_logDebug|intros _].
  apply steps_if; [apply steps_invoke|apply steps_ret].
Qed.

Lemma steps_set_trap (t : loc) (cb : callback) (name key : string)
  (v : val) :
  steps (set_trap R t cb name key v).
Proof.
  unfold set_trap.
  apply steps_bind; [apply steps_heap_only, heap_only_obj_get|].
  intros oldValue. apply steps_if; [apply steps_ret|].
  apply steps_bind; [apply steps_heap_only, heap_only_Reflect_set|].
  intros result.
  apply steps_bind; [|intros; apply steps_ret].
  apply steps_if; [|apply steps_ret].
  apply steps_bind; [apply steps_heap_only, heap_only_JSON_stringify|].
  intros so.
  apply steps_bind; [apply steps_heap_only, heap_only_JSON_stringify|].
  intros sn. cbv zeta. apply steps_notify.
Qed.

Lemma steps_deleteProperty_trap (t : loc) (cb : callback)
  (name key : string) :
  steps (deleteProperty_trap R t cb name key).
Proof.
  unfold deleteProperty_trap.
  apply steps_bind; [apply steps_heap_only, heap_only_obj_get|].
  intros oldValue.
  apply steps_bind;
    [apply steps_heap_only, heap_only_Reflect_deleteProperty; exact R|].
  intros result.
  apply steps_bind; [|intros; apply steps_ret].
  apply (steps_notify _ cb key _ t VUndef).
Qed.

Lemma steps_get_prop (v : val) (k : string) : steps (get_prop R v k).
Proof. apply steps_heap_only, heap_only_get_prop. Qed.

Lemma steps_set_prop (v : val) (k : string) (x : val) :
  steps (set_prop R v k x).
Proof.
  intros w. unfold set_prop.
  destruct v; try apply sched_step_refl.
  destruct (heap w !! l) as [[o|t cb name]|];
    try apply steps_heap_only, heap_only_own_assign.
  apply (steps_bind (set_trap R t cb name k x)); [apply steps_set_trap|].
  intros []; [apply steps_ret|apply steps_throw].
Qed.

Lemma steps_delete_prop (v : val) (k : string) : steps (delete_prop R v k).
Proof.
  intros w. unfold delete_prop.
  destruct v; try apply sched_step_refl.
  apply (steps_bind
           (match heap w !! l with
            | Some (CProxy t cb name) => deleteProperty_trap R t cb name k
            | _ => Reflect_deleteProperty l k
            end)).
  - destruct (heap w !! l) as [[o|t cb name]|];
      try (apply steps_heap_only, heap_only_Reflect_deleteProperty; exact R).
    apply steps_deleteProperty_trap.
  - intros []; [apply steps_ret|apply steps_throw].
Qed.

Lemma steps_set_walk (keys : list string) :
  forall current, steps (set_walk R current keys).
Proof.
  induction keys as [|k rest IH]; intros current; simpl.
  - apply steps_ret.
  - apply steps_bind; [apply steps_get_prop|intros c1].
    apply steps_bind.
    { apply steps_if; [apply steps_ret|].
      apply steps_bind; [apply steps_get_prop|intros; apply steps_ret]. }
    intros missing. apply steps_bind.
    { apply steps_when.
      apply steps_bind; [apply steps_heap_only, heap_only_new_object|].
      intros; apply steps_set_prop. }
    intros _. apply steps_bind; [apply steps_get_prop|intros; apply IH].
Qed.

Lemma steps_setValueByPath (obj path value : val) :
  steps (_setValueByPath R obj path value).
Proof.
  unfold _setValueByPath.
  destruct path;
    try (apply steps_bind; [apply steps_logDebug|intros; apply steps_ret]).
  apply steps_if.
  - apply steps_bind; [apply steps_logDebug|intros; apply steps_ret].
  - cbv zeta. apply steps_bind; [apply steps_set_walk|intros current].
    apply steps_bind; [apply steps_set_prop|intros; apply steps_ret].
Qed.

Lemma steps_mutate (m : mutation) : steps (mutate R m).
Proof.
  destruct m; simpl.
  - apply steps_set_prop.
  - apply steps_delete_prop.
  - apply steps_bind; [apply steps_setValueByPath|intros; apply steps_ret].
Qed.

Lemma steps_mutate_all (ms : list mutation) : steps (mutate_all R ms).
Proof.
  induction ms as [|m rest IH]; simpl.
  - apply steps_ret.
  - apply steps_bind; [apply steps_mutate|intros; exact IH].
Qed.
End Steps.

(** ** One render *)

Lemma still_ret {A : Type} (a : A) : still (ret a).
Proof. intros w. now repeat split. Qed.

Lemma still_bind {A B : Type} (m : M A) (f : A -> M B) :
  still m -> (forall a, still (f a)) -> still (bind m f).
Proof.
  intros Hm Hf w. unfold bind. specialize (Hm w).
  destruct (m w) as [[a|e] w']; simpl in *; [|exact Hm].
  destruct Hm as (M1 & F1 & R1 & O1 & T1).
  destruct (Hf a w') as (M2 & F2 & R2 & O2 & T2).
  repeat split; congruence.
Qed.

Lemma still_logDebug (msg : string) : still (_logDebug msg).
Proof.
  intros w. unfold _logDebug. destruct (debug (opts (eng w))); simpl;
    rewrite ?renders_of_app; simpl; rewrite ?app_nil_r; now repeat split.
Qed.

Lemma still_console_error (msg : string) : still (console_error msg).
Proof.
  intros w. simpl. rewrite renders_of_app. simpl. rewrite app_nil_r.
  now repeat split.
Qed.

Lemma returns_ret {A : Type} (a : A) : returns (ret a).
Proof. intros w. now exists a. Qed.

Lemma returns_logDebug (msg : string) : returns (_logDebug msg).
Proof.
  intros w. exists tt. unfold _logDebug. now destruct (debug (opts (eng w))).
Qed.

Lemma returns_bind {A B : Type} (m : M A) (f : A -> M B) :
  returns m -> (forall a, returns (f a)) -> returns (bind m f).
Proof.
  intros Hm Hf w. unfold bind. destruct (Hm w) as [a Ha].
  destruct (m w) as [[a'|e] w']; simpl in Ha; [|discriminate].
  apply Hf.
Qed.

Lemma run_hooks_spec (name : string) (tpl data : val)
  (fs : list (val -> val -> M unit)) :
  Forall (fun hookFn => still (hookFn tpl data)) fs ->
  still (run_hooks name fs tpl data) /\ returns (run_hooks name fs tpl data).
Proof.
  induction 1 as [|hookFn fs Hh _ [IHs IHr]]; simpl.
  - split; [apply still_ret|apply returns_ret].
  - assert (Hone : still (fun w =>
                     match hookFn tpl data w with
                     | (Ok _, w') => (Ok tt, w')
                     | (Throw _, w') =>
                         console_error
                           ("Spandrix: Error in hook '" +:+ name +:+ "':") w'
                     end)
                   /\ returns (fun w =>
                     match hookFn tpl data w with
                     | (Ok _, w') => (Ok tt, w')
                     | (Throw _, w') =>
                         console_error
                           ("Spandrix: Error in hook '" +:+ name +:+ "':") w'
                     end)).
    { split.
      - intros w. specialize (Hh w).
        destruct (hookFn tpl data w) as [[[]|e] w']; simpl in *; [exact Hh|].
        rewrite renders_of_app. simpl. now rewrite app_nil_r.
      - intros w. exists tt. now destruct (hookFn tpl data w) as [[[]|e] w']. }
    destruct Hone as [Hs Hr]. split.
    + apply still_bind; [exact Hs|intros; exact IHs].
    + apply returns_bind; [exact Hr|intros; exact IHr].
Qed.

Lemma once_bind_l {A B : Type} (ev : event) (m : M A) (f : A -> M B) :
  renders_once ev m -> (forall a, still (f a)) -> renders_once ev (bind m f).
Proof.
  intros Hm Hf w. unfold bind. specialize (Hm w).
  destruct (m w) as [[a|e] w']; simpl in *; [|exact Hm].
  destruct Hm as (M1 & F1 & R1 & O1 & T1).
  destruct (Hf a w') as (M2 & F2 & R2 & O2 & T2).
  repeat split; congruence.
Qed.

Lemma once_bind_r {A B : Type} (ev : event) (m : M A) (f : A -> M B) :
  still m -> returns m -> (forall a, renders_once ev (f a)) ->
  renders_once ev (bind m f).
Proof.
  intros Hm Hr Hf w. unfold bind. specialize (Hm w).
  destruct (Hr w) as [a Ha].
  destruct (m w) as [[a'|e] w']; simpl in *; [|discriminate].
  destruct Hm as (M1 & F1 & R1 & O1 & T1).
  destruct (Hf a' w') as (M2 & F2 & R2 & O2 & T2).
  repeat split; congruence.
Qed.

Lemma once_emit (ev : event) :
  is_render ev = true -> renders_once ev (modify (emit_event ev)).
Proof.
  intros Hev w. simpl. rewrite renders_of_app. unfold renders_of at 2. simpl.
  rewrite Hev. now repeat split.
Qed.

Section Render.
Variable R : realm.
Hypothesis quiet_render : still_render R.

(** A root render on an engine with its root element records the render
    and leaves the scheduler as it was, whether the processing of the
    template returns or throws. *)
Lemma reRenderRoot_once (tpl data : val) (w : world) :
  root (eng w) = true ->
  let w' := snd (_reRenderRoot R tpl data w) in
  microtasks w' = microtasks w
  /\ _rootRerenderScheduled (eng w') = _rootRerenderScheduled (eng w)
  /\ root (eng w') = root (eng w)
  /\ opts (eng w') = opts (eng w)
  /\ renders_of (trace w') = renders_of (trace w) ++ [EvRootRender tpl data].
Proof.
  intros Hroot. unfold _reRenderRoot.
  destruct (negb (root (eng w))) eqn:Hno;
    [rewrite Hroot in Hno; discriminate|clear Hno].
  set (body := _logDebug "Re-rendering root." ;;; _).
  assert (Hbody : renders_once (EvRootRender tpl data) body).
  { unfold body.
    apply once_bind_r; [apply still_logDebug|apply returns_logDebug|].
    intros _.
    destruct (run_hooks_spec "beforeRootRender" tpl data
                (hooks R "beforeRootRender")
                (sr_hooks R quiet_render _ _ _)) as [Hs Hr].
    apply once_bind_r; [exact Hs|exact Hr|]. intros _.
    apply once_bind_l; [now apply once_emit|]. intros _.
    apply still_bind; [apply (sr_process R quiet_render)|]. intros html.
    apply still_bind.
    { intros w0. simpl. now repeat split. }
    intros _.
    destruct (run_hooks_spec "afterRootRender" tpl data
                (hooks R "afterRootRender")
                (sr_hooks R quiet_render _ _ _)) as [Hs' _].
    apply still_bind; [exact Hs'|]. intros _.
    apply still_bind; [apply still_logDebug|]. intros _.
    intros w0. destruct (enablePerformanceMetrics (opts (eng w0)));
      simpl; now repeat split. }
  unfold _logPerformance.
  destruct (negb (enablePerformanceMetrics (opts (eng w)))).
  - apply Hbody.
  - apply (once_bind_l _ body (fun _ => _logDebug "Root Re-render"));
      [exact Hbody|intros; apply still_logDebug].
Qed.

(** The queued task: the flag goes down, the root is rendered once, and
    the queue is left as it was. *)
Lemma run_task_once (w : world) :
  root (eng w) = true ->
  exists w',
    run_task R TRootReRender w = (Ok tt, w')
    /\ microtasks w' = microtasks w
    /\ _rootRerenderScheduled (eng w') = false
    /\ renders_of (trace w') =
         renders_of (trace w)
         ++ [EvRootRender (_currentRootTemplateString (eng w))
               (_currentRootData (eng w))].
Proof.
  intros Hroot. cbn [run_task].
  set (w1 := set_eng (set_scheduled false (eng w)) w).
  pose proof (reRenderRoot_once (_currentRootTemplateString (eng w1))
                (_currentRootData (eng w1)) w1 Hroot)
    as (Hq & Hf & _ & _ & Htr).
  destruct (_reRenderRoot R (_currentRootTemplateString (eng w1))
              (_currentRootData (eng w1)) w1) as [[[]|e] w2];
    simpl in Hq, Hf, Htr.
  - exists w2. now repeat split.
  - eexists. split; [reflexivity|]. simpl.
    rewrite renders_of_app. simpl. rewrite app_nil_r. now repeat split.
Qed.
End Render.


(** The sample page has no code of its own and a render that leaves the
    markup as it is. *)
Lemma demo_page_steps : page_steps demo_realm.
Proof. constructor; intros; apply steps_ret. Qed.

Lemma demo_still_render : still_render demo_realm.
Proof.
  constructor.
  - intros tpl data w. now repeat split.
  - intros name tpl data. constructor.
Qed.


(** Three synchronous changes of the root data, one re-render. *)
Example three_mutations_one_render :
  let w1 := snd (mutate_all demo_realm
                   [Assign (VRef 1) "a" (VNum 1); Assign (VRef 1) "b" (VNum 2);
                    Assign (VRef 1) "c" (VNum 3)] demo_world) in
  length (calls_of CbRoot (trace w1)) = 3
  /\ microtasks w1 = [TRootReRender]
  /\ renders_of (trace (snd (run_microtasks demo_realm 3 w1)))
     = [EvRootRender VNull (VRef 1)].
Proof. vm_compute. repeat split. Qed.


(** * applyData *)

Lemma returns_run_hooks (name : string) (tpl data : val)
  (fs : list (val -> val -> M unit)) :
  returns (run_hooks name fs tpl data).
Proof.
  induction fs as [|hookFn fs IH]; simpl; [apply returns_ret|].
  apply returns_bind; [|intros; exact IH].
  intros w. exists tt. now destruct (hookFn tpl data w) as [[[]|e] w'].
Qed.

(** A root render returns when the processing of the template does. *)
Lemma reRenderRoot_returns (R : realm) (tpl data : val) :
  returns (process_root R tpl data) ->
  returns (_reRenderRoot R tpl data).
Proof.
  intros Hp w. unfold _reRenderRoot.
  destruct (negb (root (eng w))); [now exists tt|].
  set (body := _logDebug "Re-rendering root." ;;; _).
  assert (Hbody : returns body).
  { unfold body. apply returns_bind; [apply returns_logDebug|intros _].
    apply returns_bind; [apply returns_run_hooks|intros _].
    apply returns_bind; [intros w0; now exists tt|intros _].
    apply returns_bind; [exact Hp|intros html].
    apply returns_bind; [intros w0; now exists tt|intros _].
    apply returns_bind; [apply returns_run_hooks|intros _].
    apply returns_bind; [apply returns_logDebug|intros _].
    intros w0. exists tt.
    now destruct (enablePerformanceMetrics (opts (eng w0))). }
  unfold _logPerformance.
  destruct (negb (enablePerformanceMetrics (opts (eng w)))); [apply Hbody|].
  apply (returns_bind body (fun _ => _logDebug "Root Re-render"));
    [exact Hbody|intros; apply returns_logDebug].
Qed.

(** The wrapper [_makeReactive] builds over a fresh empty object. *)
Lemma makeReactive_fresh (R : realm) (l : loc) (cb : callback) (name : string)
  (w : world) :
  heap w !! l = Some (CObj (Obj KPlain false [])) ->
  plain_key R "_isReactiveProxy" ->
  _makeReactive R (VRef l) cb name w
  = (Ok (VRef (length (heap w))), set_heap (heap w ++ [CProxy l cb name]) w).
Proof.
  intros Hl Hk. unfold _makeReactive, bind. cbn [truthy].
  unfold reactive_flag. rewrite Hl.
  rewrite (obj_get_plain_key R l "_isReactiveProxy" w Hk).
  unfold own_get. rewrite Hl. reflexivity.
Qed.



(** A second [applyData] without a template renders the markup the first
    render left in the root element. *)
Example applyData_takes_current_markup :
  let w := set_eng (set_innerHTML "<p>Hello</p>" (eng demo_world))
             demo_world in
  renders_of (trace (snd (applyData demo_realm (VNum 5) VNull w)))
  = [EvRootRender (VStr "<p>Hello</p>") (VRef 7)].
Proof. vm_compute. reflexivity. Qed.

Lemma root_kept_bind {A B : Type} (m : M A) (f : A -> M B) :
  (forall w, root (eng (snd (m w))) = root (eng w)) ->
  (forall a w, root (eng (snd (f a w))) = root (eng w)) ->
  forall w, root (eng (snd (bind m f w))) = root (eng w).
Proof.
  intros Hm Hf w. unfold bind. specialize (Hm w).
  destruct (m w) as [[a|e] w']; simpl in *; [|exact Hm].
  now rewrite Hf.
Qed.

Lemma root_kept_heap_only {A : Type} (m : M A) :
  heap_only m -> forall w, root (eng (snd (m w))) = root (eng w).
Proof. intros Hm w. now destruct (Hm w) as [h ->]. Qed.

(** The constructor leaves an engine with its root element, or throws. *)
Lemma constructor_has_root (R : realm) (rootElement : option string)
  (o : options) (w : world) :
  constructor R rootElement o = Ok w -> root (eng w) = true.
Proof.
  destruct rootElement as [html|]; [|discriminate].
  unfold constructor.
  match goal with
  | |- match ?m ?w0 with _ => _ end = _ -> _ =>
      assert (Hroot : root (eng (snd (m w0))) = root (eng w0));
      [|destruct (m w0) as [[a|e] w']; [|discriminate];
        intros H; injection H as <-; exact Hroot]
  end.
  apply root_kept_bind;
    [apply root_kept_heap_only, heap_only_new_object|intros target].
  apply root_kept_bind;
    [apply root_kept_heap_only, heap_only_makeReactive|intros data].
  apply root_kept_bind; [reflexivity|intros _].
  apply root_kept_bind; [reflexivity|intros _].
  apply root_kept_bind;
    [apply root_kept_heap_only, heap_only_new_object|intros g0].
  apply root_kept_bind;
    [apply root_kept_heap_only, heap_only_makeReactive|intros g].
  apply root_kept_bind;
    [apply root_kept_heap_only, heap_only_new_object|intros s0].
  apply root_kept_bind;
    [apply root_kept_heap_only, heap_only_makeReactive|intros s1].
  reflexivity.
Qed.
(** * Expression guard and interpolation *)

Lemma trimEnd_nonempty (c : ascii) (r : string) :
  Text.is_space c = false -> Text.trimEnd (String c r) <> "".
Proof.
  intros Hc. simpl. destruct (Text.trimEnd r); [now rewrite Hc|discriminate].
Qed.

Lemma trimStart_blank (s : string) :
  Text.trimStart s = "" -> all_space s = true.
Proof.
  induction s as [|a r IH]; simpl; [reflexivity|].
  destruct (Text.is_space a); [exact IH|discriminate].
Qed.

Lemma trimStart_head (s : string) :
  match Text.trimStart s with
  | "" => True
  | String c _ => Text.is_space c = false
  end.
Proof.
  induction s as [|a r IH]; simpl; [exact I|].
  destruct (Text.is_space a) eqn:E; [exact IH|exact E].
Qed.

Lemma trim_blank_all_space (s : string) :
  Text.trim s = "" -> all_space s = true.
Proof.
  unfold Text.trim. intros H. apply trimStart_blank.
  pose proof (trimStart_head s) as Hh.
  destruct (Text.trimStart s) as [|c r]; [reflexivity|].
  exfalso. exact (trimEnd_nonempty c r Hh H).
Qed.

Lemma lower_space (b : ascii) : Text.is_space b = true -> Text.lower b = b.
Proof.
  unfold Text.is_space. simpl. intros H.
  repeat (apply orb_true_iff in H as [H|H];
          [apply Ascii.eqb_eq in H; subst b; reflexivity|]).
  discriminate.
Qed.

Lemma match_here_blank (word : string) (a : ascii) (follow : option ascii)
  (s : string) :
  Text.is_space (Text.lower a) = false ->
  all_space s = true ->
  Text.match_here (String a word) follow s = false.
Proof.
  intros Ha Hs. unfold Text.match_here. simpl.
  destruct s as [|b r]; [reflexivity|].
  simpl in Hs. apply andb_true_iff in Hs as [Hb _].
  rewrite (lower_space b Hb).
  destruct (Ascii.eqb (Text.lower a) b) eqn:E; [|reflexivity].
  apply Ascii.eqb_eq in E. congruence.
Qed.

Lemma search_blank (word : string) (a : ascii) (follow : option ascii)
  (s : string) :
  Text.is_space (Text.lower a) = false ->
  all_space s = true ->
  Text.search (Text.match_here (String a word) follow) s = false.
Proof.
  intros Ha. induction s as [|b r IH]; intros Hs.
  - cbn [Text.search]. now rewrite match_here_blank.
  - cbn [Text.search]. rewrite match_here_blank by assumption.
    simpl in Hs. apply andb_true_iff in Hs as [_ Hr]. now apply IH.
Qed.

Lemma blank_is_valid (s : string) :
  all_space s = true -> _isValidExpression s = true.
Proof.
  intros Hs. unfold _isValidExpression, dangerousPatterns. cbn [existsb].
  rewrite !search_blank by (assumption || reflexivity). reflexivity.
Qed.

Lemma denylisted_not_blank (e : string) :
  _isValidExpression e = false -> Text.trim e <> "".
Proof.
  intros Hbad Hblank. apply trim_blank_all_space in Hblank.
  rewrite (blank_is_valid e Hblank) in Hbad. discriminate.
Qed.

(** C3. For every expression text the denylist rejects,
    [_buildScopedEvaluator] logs exactly one warning naming the expression
    and returns an evaluator that returns [undefined] in every state,
    whatever data context, component instance and extra scope it was
    given. *)
Theorem C3_denylisted_expression_blocked (H : host) (e : string)
  (baseDataContext componentInstance additionalScope : val) (w : world) :
  _isValidExpression e = false ->
  exists ev : evaluator,
    _buildScopedEvaluator H (VStr e) baseDataContext componentInstance
      additionalScope w
    = (Ok ev,
       emit_event
         (EvWarn ("Spandrix: Blocked unsafe expression: " +:+ Text.quoted e))
         w)
    /\ forall w', ev w' = (Ok VUndef, w').
Proof.
  intros Hbad. pose proof (denylisted_not_blank e Hbad) as Htrim.
  assert (He : e <> "") by (intros ->; now apply Htrim).
  exists noop_evaluator. split; [|reflexivity].
  unfold _buildScopedEvaluator. cbn [truthy].
  destruct (String.eqb_spec e ""); [contradiction|].
  destruct (String.eqb_spec (Text.trim e) ""); [contradiction|].
  cbn [negb orb]. rewrite Hbad. reflexivity.
Qed.

(** C3, witness: [eval("x")]-like text. *)
Lemma C3_witness :
  exists ev : evaluator,
    _buildScopedEvaluator demo_host (VStr "eval (x)") (VRef 1) VNull VNull
      demo_world
    = (Ok ev,
       emit_event
         (EvWarn ("Spandrix: Blocked unsafe expression: "
                  +:+ Text.quoted "eval (x)"))
         demo_world)
    /\ forall w', ev w' = (Ok VUndef, w').
Proof.
  apply (C3_denylisted_expression_blocked demo_host "eval (x)").
  reflexivity.
Defined.

Example denylist_samples :
  _isValidExpression "a.constructor  [0]" = false
  /\ _isValidExpression "x.__PROTO__" = false
  /\ _isValidExpression "new Function ('return 1')" = false
  /\ _isValidExpression "setTimeout(f, 0)" = false
  /\ _isValidExpression "evaluate(x)" = true
  /\ _isValidExpression "user.name" = true.
Proof. repeat split. Qed.

(** The replacer on an empty raw capture: the capture counts as missing and
    [trim] is called on the other one, which is [undefined]. *)
Lemma empty_raw_capture_throws (H : host) (R : realm)
  (dataContext componentInstance loopScope : val) (w : world) :
  interpolate_match H R dataContext componentInstance loopScope (Some "") None w
  = (Throw (TypeError "Cannot read properties of undefined (reading 'trim')"),
     w).
Proof. reflexivity. Qed.

(** Replacing stops at the first segment whose replacer throws. *)
Lemma render_throws (f : option string -> option string -> M string)
  (rawExpr escapedExpr : option string) (ps : list piece) :
  (forall w, exists e, f rawExpr escapedExpr w = (Throw e, w)) ->
  In (Hit rawExpr escapedExpr) ps ->
  forall w, exists e w', render f ps w = (Throw e, w').
Proof.
  intros Hf. induction ps as [|p ps IH]; intros Hin w; [contradiction|].
  destruct Hin as [->|Hin].
  - destruct (Hf w) as [e He]. simpl. unfold bind. rewrite He. eauto.
  - destruct p as [c|raw esc]; simpl.
    + destruct (IH Hin w) as (e & w' & Hr). unfold bind. rewrite Hr. eauto.
    + unfold bind at 1. destruct (f raw esc w) as [[x|e] w1]; [|eauto].
      destruct (IH Hin w1) as (e & w' & Hr). unfold bind. rewrite Hr. eauto.
Qed.

(** C2 (code defect). A template in which the pattern matches [{{{}}}], a
    raw segment with an empty capture, is never rendered: the replacer
    takes the empty capture for a missing one and calls [trim] on
    [undefined], so [_interpolateString] throws, for every host, context,
    option setting and state, instead of yielding the unescaped string or
    the placeholder. *)
Theorem C2_empty_raw_segment_throws (H : host) (R : realm)
  (templateStr : string)
  (dataContext componentInstance loopScope : val) (w : world) :
  In (Hit (Some "") None) (scan (String.length templateStr) templateStr) ->
  exists e w',
    _interpolateString H R (VStr templateStr) dataContext componentInstance
      loopScope w
    = (Throw e, w').
Proof.
  intros Hin. unfold _interpolateString.
  eapply render_throws; [|exact Hin].
  intros w0. eexists. apply empty_raw_capture_throws.
Qed.

(** C2, witness: the template [{{{}}}] on a fresh engine. *)
Lemma C2_witness :
  exists e w',
    _interpolateString demo_host demo_realm (VStr "{{{}}}") (VRef 1) VNull VNull
      demo_world
    = (Throw e, w').
Proof.
  apply (C2_empty_raw_segment_throws demo_host demo_realm "{{{}}}").
  vm_compute. auto.
Defined.

(** The segment inside a longer template, after an escaped one. *)
Example empty_raw_segment_inside :
  fst (_interpolateString demo_host demo_realm (VStr "<p>{{ title }}{{{}}}</p>")
         (VRef 1) VNull VNull demo_world)
  = Throw (TypeError "Cannot read properties of undefined (reading 'trim')").
Proof. reflexivity. Qed.

(** The template [{{{}}}] alone: the [TypeError], and nothing else done. *)
Example empty_raw_segment_alone (H : host) (R : realm)
  (dataContext componentInstance loopScope : val) (w : world) :
  _interpolateString H R (VStr "{{{}}}") dataContext componentInstance loopScope w
  = (Throw (TypeError "Cannot read properties of undefined (reading 'trim')"),
     w).
Proof. reflexivity. Qed.

(** What the claim describes holds where the capture is not empty. *)
Example interpolation_escaped_and_raw :
  let w := snd (set_prop demo_realm (VRef 1) "title" (VStr "<b>x</b>") demo_world) in
  let r := _interpolateString demo_host demo_realm
             (VStr "a{{ title }}b{{{ title }}}c") (VRef 1) VNull VNull w in
  fst r = Ok "a&lt;b&gt;x&lt;/b&gt;bc"
  /\ trace (snd r)
     = trace w ++ [EvWarn "Spandrix: Raw HTML disabled for {{{ title }}}"].
Proof. split; vm_compute; reflexivity. Qed.

(** * Component context *)

(** C9. On a component instance whose [_destroyed] flag is set, [$emit]
    returns at once for every event name and payload: the state, and with
    it the trace of dispatched events, is unchanged. *)
Theorem C9_emit_after_destroy_is_noop (R : realm) (c : nat) (inst : object)
  (event : string) (detail : list val) (w : world) :
  heap w !! c = Some (CObj inst) ->
  truthy (or_undef (prop_get "_destroyed" (o_props inst))) = true ->
  emit R c event detail w = (Ok tt, w).
Proof.
  intros Hc Hd. unfold emit, bind.
  destruct (prop_get "_destroyed" (o_props inst)) as [v|] eqn:Hv;
    [|discriminate].
  rewrite (get_prop_own R w c inst "_destroyed" v Hc Hv).
  cbn [or_undef] in Hd. now rewrite Hd.
Qed.

(** C9, witness: [$emit("close", 1, 2)] on a destroyed instance. *)
Lemma C9_witness :
  emit demo_realm 12 "close" [VNum 1; VNum 2] destroyed_world
  = (Ok tt, destroyed_world).
Proof.
  apply (C9_emit_after_destroy_is_noop demo_realm 12
           (Obj KPlain false
              [("_componentData", VRef 7); ("$props", VRef 9);
               ("_parentLoopScope", VRef 10); ("$el", VRef 11);
               ("_mounted", VBool true); ("_destroyed", VBool true)]));
    reflexivity.
Defined.

(** A live instance dispatches the event from its host element. *)
Example emit_on_live_instance :
  let r := emit demo_realm 12 "close" [VNum 1] component_world in
  fst r = Ok tt
  /\ trace (snd r)
     = trace component_world ++ [EvDispatch (VRef 11) "close" (VNum 1)].
Proof. split; reflexivity. Qed.

(** C7 (code defect). In a component whose definition has a [data]
    function, [<x-card title="Hi">] with data [{ count: 0 }], assigning to
    the declared prop [title] through the template context is accepted:
    [title] is a key of the props container and not of the data container,
    yet the trap returns [true], logs no warning and stores the value in
    the data container under the prop's name, where the template context
    reads it before the prop. *)
Theorem C7_data_function_accepts :
  let r := templateContext_set demo_realm (x_card true) 12 "title"
             (VStr "Bye") component_world in
  fst (has_prop demo_realm (VRef 9) "title" component_world) = Ok true
  /\ fst (has_prop demo_realm (VRef 7) "title" component_world) = Ok false
  /\ fst r = Ok true
  /\ own_get (heap (snd r)) 6 "title" = VStr "Bye"
  /\ own_get (heap (snd r)) 8 "title" = VStr "Hi"
  /\ List.filter (fun e => match e with EvWarn _ => true | _ => false end)
       (trace (snd r)) = [].
Proof. vm_compute. repeat split. Qed.

(** The branch the claim describes is reached only without a [data]
    function: there the same assignment is refused with the warning and
    nothing is stored. *)
Example prop_assignment_without_data_function :
  templateContext_set demo_realm (x_card false) 12 "title" (VStr "Bye")
    component_world
  = (Ok false,
     emit_event
       (EvWarn ("Spandrix: Cannot set prop " +:+ Text.quoted "title"
                +:+ " on <x-card>. Props are one-way.")) component_world).
Proof. vm_compute. reflexivity. Qed.

(** [key in target._componentData] follows the prototype chain: a prop
    called [constructor] counts as a key of the data container, so the
    assignment goes there even without a [data] function. *)
Example inherited_key_goes_to_data :
  let w := set_heap (<[8 := CObj (Obj KPlain false
                                    [("constructor", VStr "Hi")])]>
                       (heap component_world)) component_world in
  let r := templateContext_set demo_realm (x_card false) 12 "constructor"
             (VStr "Bye") w in
  own_has (heap w) 6 "constructor" = false
  /\ fst r = Ok true
  /\ own_get (heap (snd r)) 6 "constructor" = VStr "Bye"
  /\ List.filter (fun e => match e with EvWarn _ => true | _ => false end)
       (trace (snd r)) = [].
Proof. vm_compute. repeat split. Qed.
(** * Fetch state: what the promise handlers leave behind *)

(** ** Frames *)

Lemma slot_kept_refl (x : option val) : slot_kept x x.
Proof. now left. Qed.

Lemma slot_kept_trans (x y z : option val) :
  slot_kept x y -> slot_kept y z -> slot_kept x z.
Proof.
  intros [E1|(a & b & E1 & E2)] [E3|(c & d & E3 & E4)]; subst;
    [now left|right; eauto..].
Qed.

Lemma slot_kept_primitive (x y : option val) :
  slot_kept x y -> is_object (or_undef x) = false -> y = x.
Proof. intros [->|(a & b & -> & ->)] Hx; [reflexivity|discriminate]. Qed.

Lemma slot_kept_presence (x y : option val) :
  slot_kept x y -> (x = None <-> y = None).
Proof.
  intros [->|(a & b & -> & ->)]; [tauto|]. split; discriminate.
Qed.

Lemma frame_refl (K : list string) (h : list cell) : frame K h h.
Proof. split; eauto 10 using slot_kept_refl. Qed.

Lemma frame_trans (K : list string) (h1 h2 h3 : list cell) :
  frame K h1 h2 -> frame K h2 h3 -> frame K h1 h3.
Proof.
  intros [P1 O1] [P2 O2]. split.
  - eauto.
  - intros l o Ho. destruct (O1 _ _ Ho) as (o1 & H1 & F1 & K1 & G1).
    destruct (O2 _ _ H1) as (o2 & H2 & F2 & K2 & G2).
    exists o2. repeat split; try congruence.
    intros k Hk. eapply slot_kept_trans; eauto.
Qed.

Lemma frame_mono (K K' : list string) (h h' : list cell) :
  incl K K' -> frame K h h' -> frame K' h h'.
Proof.
  intros Hi [P O]. split; [exact P|].
  intros l o Ho. destruct (O _ _ Ho) as (o1 & H1 & F1 & K1 & G1).
  exists o1. repeat split; auto.
Qed.

Lemma prop_get_del_ne (k k' : string) (ps : list (string * val)) :
  k' <> k -> prop_get k' (prop_del k ps) = prop_get k' ps.
Proof.
  intros Hne. induction ps as [|[k0 v0] ps IH]; simpl; [reflexivity|].
  destruct (String.eqb_spec k k0) as [->|Hk]; simpl.
  - destruct (String.eqb_spec k' k0); [congruence|exact IH].
  - destruct (String.eqb_spec k' k0); [reflexivity|exact IH].
Qed.

Lemma prop_get_del_eq (k : string) (ps : list (string * val)) :
  prop_get k (prop_del k ps) = None.
Proof.
  induction ps as [|[k0 v0] ps IH]; simpl; [reflexivity|].
  destruct (String.eqb_spec k k0) as [->|Hk]; simpl; [exact IH|].
  destruct (String.eqb_spec k k0); [congruence|exact IH].
Qed.

Lemma frame_write (h : list cell) (l : loc) (o : object) (k : string)
  (v : val) :
  h !! l = Some (CObj o) -> frame [k] h (write_slot l k v o h).
Proof.
  intros Hl. unfold write_slot. split.
  - intros l' t cb name H'.
    destruct (decide (l' = l)) as [->|Hne]; [congruence|].
    rewrite list_lookup_insert_ne; auto.
  - intros l' o' H'. destruct (decide (l' = l)) as [->|Hne].
    + rewrite list_lookup_insert_eq by (eapply lookup_lt_Some; eauto).
      assert (o' = o) by congruence; subst o'.
      eexists; split; [reflexivity|]. repeat split.
      intros k' Hk'. simpl. left. symmetry. apply prop_get_set_ne.
      intros ->. apply Hk'; now left.
    + rewrite list_lookup_insert_ne by auto.
      eauto 10 using slot_kept_refl.
Qed.

(** Storing an object where an object was: the step the [get] trap takes
    when it puts a wrapper in place of the object it wraps. *)
Lemma frame_rewrap (h : list cell) (l : loc) (o : object) (k : string)
  (a b : loc) :
  h !! l = Some (CObj o) ->
  prop_get k (o_props o) = Some (VRef a) ->
  frame [] h (write_slot l k (VRef b) o h).
Proof.
  intros Hl Hk. unfold write_slot. split.
  - intros l' t cb name H'.
    destruct (decide (l' = l)) as [->|Hne]; [congruence|].
    rewrite list_lookup_insert_ne; auto.
  - intros l' o' H'. destruct (decide (l' = l)) as [->|Hne].
    + rewrite list_lookup_insert_eq by (eapply lookup_lt_Some; eauto).
      assert (o' = o) by congruence; subst o'.
      eexists; split; [reflexivity|]. repeat split.
      intros k' _. simpl. destruct (String.eqb_spec k k') as [<-|Hne].
      * rewrite prop_get_set_eq, Hk. right. eauto.
      * left. symmetry. now apply prop_get_set_ne.
    + rewrite list_lookup_insert_ne by auto.
      eauto 10 using slot_kept_refl.
Qed.

Lemma frame_delete (h : list cell) (l : loc) (o : object) (k : string) :
  h !! l = Some (CObj o) ->
  frame [k] h (<[l := CObj (with_props o (prop_del k (o_props o)))]> h).
Proof.
  intros Hl. split.
  - intros l' t cb name H'.
    destruct (decide (l' = l)) as [->|Hne]; [congruence|].
    rewrite list_lookup_insert_ne; auto.
  - intros l' o' H'. destruct (decide (l' = l)) as [->|Hne].
    + rewrite list_lookup_insert_eq by (eapply lookup_lt_Some; eauto).
      assert (o' = o) by congruence; subst o'.
      eexists; split; [reflexivity|]. repeat split.
      intros k' Hk'. simpl. left. symmetry. apply prop_get_del_ne.
      intros ->. apply Hk'; now left.
    + rewrite list_lookup_insert_ne by auto.
      eauto 10 using slot_kept_refl.
Qed.

Lemma frame_alloc (K : list string) (h : list cell) (c : cell) :
  frame K h (h ++ [c]).
Proof.
  split.
  - intros l t cb name H'.
    rewrite lookup_app_l; [auto|eapply lookup_lt_Some; eauto].
  - intros l o H'. rewrite lookup_app_l by (eapply lookup_lt_Some; eauto).
    eauto 10 using slot_kept_refl.
Qed.

Lemma frame_own_get (K : list string) (h h' : list cell) (l : loc)
  (o : object) (k : string) :
  frame K h h' -> h !! l = Some (CObj o) -> ~ In k K ->
  is_object (own_get h l k) = false ->
  own_get h' l k = own_get h l k.
Proof.
  intros [_ O] Hl Hk Hprim. destruct (O _ _ Hl) as (o' & Hl' & _ & _ & G).
  unfold own_get in Hprim |- *. rewrite Hl in Hprim. rewrite Hl, Hl'.
  f_equal. exact (slot_kept_primitive _ _ (G k Hk) Hprim).
Qed.

Lemma frame_own_has (K : list string) (h h' : list cell) (l : loc)
  (o : object) (k : string) :
  frame K h h' -> h !! l = Some (CObj o) -> ~ In k K ->
  own_has h' l k = own_has h l k.
Proof.
  intros [_ O] Hl Hk. destruct (O _ _ Hl) as (o' & Hl' & _ & _ & G).
  unfold own_has, prop_has. rewrite Hl, Hl'.
  pose proof (slot_kept_presence _ _ (G k Hk)) as Hp.
  destruct (prop_get k (o_props o)), (prop_get k (o_props o'));
    try reflexivity; exfalso.
  - assert (Some v = None) by now apply Hp. discriminate.
  - assert (Some v = None) by now apply Hp. discriminate.
Qed.

(** A slot that does not hold a given text does not come to hold it. *)
Lemma frame_not_text (K : list string) (h h' : list cell) (l : loc)
  (o : object) (k s : string) :
  frame K h h' -> h !! l = Some (CObj o) -> ~ In k K ->
  own_get h l k <> VStr s -> own_get h' l k <> VStr s.
Proof.
  intros [_ O] Hl Hk Hne. destruct (O _ _ Hl) as (o' & Hl' & _ & _ & G).
  unfold own_get in Hne |- *. rewrite Hl in Hne. rewrite Hl'.
  destruct (G k Hk) as [E|(a & b & E1 & E2)].
  - now rewrite <- E.
  - rewrite E2. discriminate.
Qed.

(** ** Computations that leave the heap alone *)

Lemma heap_kept_bind {A B : Type} (m : M A) (f : A -> M B) :
  heap_kept m -> (forall a, heap_kept (f a)) -> heap_kept (bind m f).
Proof.
  intros Hm Hf w. unfold bind. specialize (Hm w).
  destruct (m w) as [[a|e] w1]; simpl in *; [|exact Hm].
  now rewrite Hf.
Qed.

Lemma heap_kept_ret {A : Type} (a : A) : heap_kept (ret a).
Proof. now intros w. Qed.

Lemma heap_kept_throw {A : Type} (e : exn) : heap_kept (@throw A e).
Proof. now intros w. Qed.

Lemma heap_kept_quiet (m : M unit) : quiet m -> heap_kept m.
Proof.
  intros Hq w. destruct (Hq w) as (w' & evs & R & H & _). now rewrite R.
Qed.

Lemma heap_kept_logDebug (msg : string) : heap_kept (_logDebug msg).
Proof. apply heap_kept_quiet, quiet_logDebug. Qed.

Lemma heap_kept_console_error (msg : string) : heap_kept (console_error msg).
Proof. now intros w. Qed.

Lemma heap_kept_invoke (R : realm) (cb : callback) (t : loc) (k : string)
  (v old : val) :
  cb_defers cb = true -> Forall (plain_key R) (cb_keys cb) ->
  heap_kept (invoke R cb t k v old).
Proof.
  intros Hd Hk w.
  destruct (invoke_spec R cb t k v old w Hd Hk) as (w' & evs & Hr & Hh & _).
  now rewrite Hr.
Qed.

Lemma invoke_returns (R : realm) (cb : callback) (t : loc) (k : string)
  (v old : val) (w : world) :
  cb_defers cb = true -> Forall (plain_key R) (cb_keys cb) ->
  fst (invoke R cb t k v old w) = Ok tt.
Proof.
  intros Hd Hk.
  destruct (invoke_spec R cb t k v old w Hd Hk) as (w' & evs & Hr & _).
  now rewrite Hr.
Qed.

Lemma heap_kept_classList_remove (n : nat) (c : string) :
  heap_kept (classList_remove n c).
Proof. now intros w. Qed.

Lemma heap_kept_classList_add (n : nat) (c : string) :
  heap_kept (classList_add n c).
Proof.
  intros w. unfold classList_add, bind, classList_contains.
  now destruct (existsb _ _).
Qed.

Lemma heap_kept_with_class (cls : val) (f : string -> M unit) :
  (forall s, heap_kept (f s)) -> heap_kept (with_class cls f).
Proof.
  intros Hf. unfold with_class. destruct cls; try apply heap_kept_ret.
  destruct (truthy (VStr s)); [apply Hf|apply heap_kept_ret].
Qed.

(** ** Computations that keep to a set of keys *)

Lemma keeps_kept {A : Type} (K : list string) (P : list cell -> Prop)
  (m : M A) :
  heap_kept m -> keeps K P m.
Proof. intros H w _. rewrite H. apply frame_refl. Qed.

Lemma keeps_ret {A : Type} (K : list string) (P : list cell -> Prop) (a : A) :
  keeps K P (ret a).
Proof. apply keeps_kept, heap_kept_ret. Qed.

Lemma keeps_bind {A B : Type} (K : list string) (P : list cell -> Prop)
  (m : M A) (f : A -> M B) :
  stable P ->
  keeps K P m -> (forall a, keeps K P (f a)) -> keeps K P (bind m f).
Proof.
  intros Hs Hm Hf w HP. unfold bind. specialize (Hm w HP).
  destruct (m w) as [[a|e] w1]; simpl in *; [|exact Hm].
  eapply frame_trans; [exact Hm|]. apply Hf. eapply Hs; eauto.
Qed.

Lemma keeps_mono {A : Type} (K K' : list string) (P : list cell -> Prop)
  (m : M A) :
  incl K K' -> keeps K P m -> keeps K' P m.
Proof. intros Hi Hm w HP. eapply frame_mono; eauto. Qed.

Lemma keeps_when (K : list string) (P : list cell -> Prop) (b : bool)
  (m : M unit) :
  keeps K P m -> keeps K P (when b m).
Proof. intros Hm. destruct b; [exact Hm|apply keeps_ret]. Qed.

Lemma framed_bind {A B : Type} (K : list string) (m : M A) (f : A -> M B) :
  framed K m -> (forall a, framed K (f a)) -> framed K (bind m f).
Proof.
  intros Hm Hf w. unfold bind. specialize (Hm w).
  destruct (m w) as [[a|e] w1]; simpl in *; [|exact Hm].
  eapply frame_trans; [exact Hm|apply Hf].
Qed.

Lemma framed_kept {A : Type} (K : list string) (m : M A) :
  heap_kept m -> framed K m.
Proof. intros H w. rewrite H. apply frame_refl. Qed.

Lemma framed_if {A : Type} (K : list string) (b : bool) (m1 m2 : M A) :
  framed K m1 -> framed K m2 -> framed K (if b then m1 else m2).
Proof. now destruct b. Qed.

(** ** The traps on a slot that is the object's own *)

Lemma special_keys (k : string) :
  In k container_keys ->
  String.eqb k "_isReactiveProxy" = false
  /\ String.eqb k "_reactiveTarget" = false.
Proof.
  unfold container_keys. simpl.
  intros [<-|[<-|[<-|[<-|[<-|[<-|[]]]]]]]; split; reflexivity.
Qed.

Section Bare.
Variable R : realm.
Hypothesis wraps : stringify_wraps R.
Hypothesis flag_plain : plain_key R "_isReactiveProxy".

Lemma framed_JSON_stringify (K : list string) (v : val) :
  framed K (JSON_stringify R v).
Proof.
  intros w. unfold JSON_stringify, on_heap. cbn [snd heap set_heap].
  eapply frame_mono; [|apply wraps]. intros ? [].
Qed.

Lemma obj_get_bare (w : world) (l : loc) (o : object) (k : string) :
  heap w !! l = Some (CObj o) ->
  exotic R l (o_kind o) k = None ->
  obj_get R l k w = (Ok (own_get (heap w) l k), w).
Proof.
  intros Hl Hk. unfold obj_get, own_get. rewrite Hl.
  destruct (prop_get k (o_props o)); [reflexivity|]. now rewrite Hk.
Qed.

Lemma data_slot_bare (l : loc) (o : object) (k : string) :
  exotic R l (o_kind o) k = None -> data_slot R l o k = true.
Proof.
  intros Hk. unfold data_slot. rewrite Hk. now destruct (prop_get _ _).
Qed.

Lemma slot_value_bare (h : list cell) (l : loc) (o : object) (k : string) :
  h !! l = Some (CObj o) ->
  exotic R l (o_kind o) k = None ->
  slot_value R l o k = own_get h l k.
Proof.
  intros Hl Hk. unfold slot_value, own_get. rewrite Hl, Hk.
  now destruct (prop_get _ _).
Qed.

Lemma reactive_flag_spec (v : val) (w : world) :
  exists f, reactive_flag R v w = (Ok f, w).
Proof.
  unfold reactive_flag. destruct v; try (eexists; reflexivity).
  destruct (heap w !! l) as [[o|? ? ?]|] eqn:Hl;
    try (eexists; reflexivity);
    rewrite (obj_get_plain_key R l "_isReactiveProxy" w flag_plain);
    eexists; reflexivity.
Qed.

(** What the [get] trap returns for such a slot, and what it leaves:
    either nothing has changed and the value is the stored one, or the
    stored object has been replaced by its new wrapper. *)
Lemma get_trap_bare (w : world) (t : loc) (cb : callback)
  (name k : string) (o : object) :
  heap w !! t = Some (CObj o) ->
  o_frozen o = false ->
  exotic R t (o_kind o) k = None ->
  String.eqb k "_isReactiveProxy" = false ->
  String.eqb k "_reactiveTarget" = false ->
  exists v w',
    get_trap R t cb name k w = (Ok v, w')
    /\ ((v = own_get (heap w) t k /\ w' = w)
        \/ exists l,
             own_get (heap w) t k = VRef l
             /\ (exists ol, heap w !! l = Some (CObj ol))
             /\ v = VRef (length (heap w))
             /\ w' = set_heap
                       (write_slot t k (VRef (length (heap w))) o
                          (heap w
                           ++ [CProxy l (CbNested cb t k (VRef l))
                                 (name +:+ "." +:+ k)])) w).
Proof.
  intros Ht Hf Hk E1 E2. unfold get_trap. rewrite E1, E2.
  unfold bind at 1. rewrite (obj_get_bare w t o k Ht Hk).
  set (value := own_get (heap w) t k).
  unfold bind at 1. unfold wrappable.
  destruct (typeof_object value && negb (strict_eq value VNull)) eqn:Hobj.
  2:{ cbn [ret]. unfold bind, ret.
      rewrite (obj_get_bare w t o k Ht Hk). eauto 10. }
  unfold bind at 1.
  destruct (reactive_flag_spec value w) as [f Hflag]. rewrite Hflag.
  cbv beta iota.
  destruct (negb (truthy f) && wrap_candidate (heap w) value) eqn:Hwrap.
  2:{ unfold bind, ret. rewrite (obj_get_bare w t o k Ht Hk). eauto 10. }
  apply andb_true_iff in Hwrap as [Hfalsy Hcand].
  apply negb_true_iff in Hfalsy.
  unfold wrap_candidate in Hcand.
  destruct value as [| | | | | |l] eqn:Hvalue; try discriminate.
  destruct (heap w !! l) as [[ol|? ? ?]|] eqn:Hl; try discriminate.
  unfold bind at 1. unfold bind at 1.
  rewrite (obj_get_bare w t o k Ht Hk). fold value. rewrite Hvalue.
  unfold strict_eq. rewrite bool_decide_eq_true_2 by reflexivity.
  unfold bind at 1. unfold _makeReactive. unfold bind at 1.
  cbn [truthy]. rewrite Hflag. cbv beta iota. rewrite Hfalsy.
  cbn [andb]. unfold bind at 1. unfold alloc at 1. cbv beta iota.
  unfold ret at 1.
  set (q := length (heap w)).
  set (px := CProxy l (CbNested cb t k (VRef l)) (name +:+ "." +:+ k)).
  set (w1 := set_heap (heap w ++ [px]) w).
  assert (Ht1 : heap w1 !! t = Some (CObj o)).
  { unfold w1. cbn [heap set_heap]. rewrite lookup_app_l; [exact Ht|].
    eapply lookup_lt_Some; eauto. }
  assert (Hassign : own_assign R t k (VRef q) w1
                    = (Ok tt, set_heap (write_slot t k (VRef q) o (heap w1))
                                w1)).
  { unfold own_assign, bind.
    rewrite (Reflect_set_slot R w1 t o k (VRef q) Ht1 Hf
               (data_slot_bare t o k Hk)). reflexivity. }
  rewrite Hassign.
  set (w2 := set_heap (write_slot t k (VRef q) o (heap w1)) w1).
  assert (Ht2 : heap w2 !! t
                = Some (CObj (with_props o
                                (prop_set k (VRef q) (o_props o))))).
  { unfold w2. cbn [heap set_heap]. now apply write_slot_lookup. }
  rewrite (obj_get_own R w2 t _ k (VRef q) Ht2)
    by (cbn [o_props with_props]; apply prop_get_set_eq).
  exists (VRef q), w2. split; [reflexivity|]. right. exists l.
  split; [reflexivity|]. split; [eauto|]. split; [reflexivity|].
  reflexivity.
Qed.

Lemma get_trap_bare_frame (w : world) (t : loc) (cb : callback)
  (name k : string) (o : object) :
  heap w !! t = Some (CObj o) ->
  o_frozen o = false ->
  exotic R t (o_kind o) k = None ->
  String.eqb k "_isReactiveProxy" = false ->
  String.eqb k "_reactiveTarget" = false ->
  exists v w',
    get_trap R t cb name k w = (Ok v, w')
    /\ frame [] (heap w) (heap w')
    /\ (forall s, v = VStr s <-> own_get (heap w) t k = VStr s).
Proof.
  intros Ht Hf Hk E1 E2.
  destruct (get_trap_bare w t cb name k o Ht Hf Hk E1 E2)
    as (v & w' & Hrun & [[-> ->]|(l & Hold & _ & -> & ->)]);
    exists v, w' || idtac.
  - eexists _, _. split; [exact Hrun|]. split; [apply frame_refl|].
    intros s. reflexivity.
  - eexists _, _. split; [exact Hrun|]. split.
    + cbn [heap set_heap].
      eapply frame_trans; [apply frame_alloc|].
      apply frame_rewrap with l.
      * rewrite lookup_app_l; [exact Ht|eapply lookup_lt_Some; eauto].
      * unfold own_get in Hold. rewrite Ht in Hold.
        destruct (prop_get k (o_props o)); simpl in Hold; congruence.
    + intros s. rewrite Hold. split; discriminate.
Qed.

Section Callback.
Variable cb : callback.
Hypothesis defers : cb_defers cb = true.
Hypothesis keys_plain : Forall (plain_key R) (cb_keys cb).

Lemma framed_notify (name : string) (t : loc) (k : string) (v old : val) :
  framed []
    (so <- JSON_stringify R old ;;
     sn <- JSON_stringify R v ;;
     if negb (bool_decide (so = sn)) then
       _logDebug ("Reactive set in " +:+ name +:+ ": " +:+ k) ;;;
       if callback_truthy cb then invoke R cb t k v old else ret tt
     else ret tt).
Proof.
  apply framed_bind; [apply framed_JSON_stringify|intros so].
  apply framed_bind; [apply framed_JSON_stringify|intros sn].
  apply framed_if; [|apply framed_kept, heap_kept_ret].
  apply framed_bind; [apply framed_kept, heap_kept_logDebug|intros _].
  apply framed_if; [|apply framed_kept, heap_kept_ret].
  apply framed_kept, heap_kept_invoke; assumption.
Qed.

(** What the [set] trap leaves for such a slot, however it ends: only
    that key has changed, and a primitive that was written is there. *)
Lemma set_trap_bare (w : world) (t : loc) (name k : string) (v : val)
  (o : object) :
  heap w !! t = Some (CObj o) ->
  o_frozen o = false ->
  exotic R t (o_kind o) k = None ->
  let w' := snd (set_trap R t cb name k v w) in
  frame [k] (heap w) (heap w')
  /\ (is_object v = false -> own_get (heap w') t k = v).
Proof.
  intros Ht Hf Hk.
  rewrite (set_trap_stores R w t cb name k v o Ht Hf
             (data_slot_bare t o k Hk)).
  rewrite (slot_value_bare (heap w) t o k Ht Hk).
  destruct (strict_eq v (own_get (heap w) t k)
            && (negb (typeof_object v) || strict_eq v VNull)) eqn:Hearly.
  { apply andb_true_iff in Hearly as [Heq _].
    apply bool_decide_eq_true in Heq. cbn [snd].
    split; [apply frame_refl|]. intros _. now symmetry. }
  set (w1 := set_heap (write_slot t k v o (heap w)) w).
  set (body := if negb (Text.startsWith k "_") then _ else ret tt).
  assert (Hbody : framed [] body).
  { unfold body. apply framed_if; [|apply framed_kept, heap_kept_ret].
    apply framed_notify. }
  assert (Hsnd : heap (snd ((body ;;; ret true) w1)) = heap (snd (body w1))).
  { unfold bind, ret. now destruct (body w1) as [[[]|e] w2]. }
  cbv zeta. rewrite Hsnd. specialize (Hbody w1).
  assert (Ht1 : heap w1 !! t
                = Some (CObj (with_props o (prop_set k v (o_props o))))).
  { unfold w1. cbn [heap set_heap]. now apply write_slot_lookup. }
  split.
  - eapply frame_trans; [apply (frame_write (heap w) t o k v Ht)|].
    eapply frame_mono; [|exact Hbody]. intros ? [].
  - intros Hprim.
    rewrite (frame_own_get [] _ _ t _ k Hbody Ht1) by
      (try (intros []);
       unfold w1; cbn [heap set_heap];
       rewrite (own_get_write_eq (heap w) t k v o Ht); exact Hprim).
    unfold w1. cbn [heap set_heap]. now apply own_get_write_eq.
Qed.

(** The trap returns when the two serialisations do, or are not
    made. *)
Lemma set_trap_returns (w : world) (t : loc) (name k : string) (v : val)
  (o : object) :
  heap w !! t = Some (CObj o) ->
  o_frozen o = false ->
  exotic R t (o_kind o) k = None ->
  Text.startsWith k "_" = true
  \/ strict_eq v (own_get (heap w) t k) && negb (is_object v) = true
  \/ (stringifies R (write_slot t k v o (heap w)) (own_get (heap w) t k)
      = true
      /\ forall h, stringifies R h v = true) ->
  fst (set_trap R t cb name k v w) = Ok true.
Proof.
  intros Ht Hf Hk Hcase.
  rewrite (set_trap_stores R w t cb name k v o Ht Hf
             (data_slot_bare t o k Hk)).
  rewrite (slot_value_bare (heap w) t o k Ht Hk), same_primitive.
  destruct (strict_eq v (own_get (heap w) t k) && negb (is_object v))
    eqn:Hearly; [reflexivity|].
  destruct (Text.startsWith k "_") eqn:Hprivate; [reflexivity|].
  destruct Hcase as [?|[?|[Hold Hnew]]]; try discriminate.
  cbn [negb]. unfold bind at 1. unfold bind at 1.
  unfold JSON_stringify at 1, on_heap. cbn [heap set_heap].
  unfold stringifies in Hold.
  destruct (fst (stringify R (own_get (heap w) t k)
                   (write_slot t k v o (heap w)))) as [so|] eqn:Hso;
    [|discriminate].
  unfold bind at 1. unfold JSON_stringify at 1, on_heap.
  cbn [heap set_heap].
  specialize (Hnew (snd (stringify R (own_get (heap w) t k)
                           (write_slot t k v o (heap w))))).
  unfold stringifies in Hnew.
  destruct (fst (stringify R v _)) as [sn|] eqn:Hsn; [|discriminate].
  destruct (negb (bool_decide (so = sn))); [|reflexivity].
  unfold bind at 1.
  match goal with
  | |- context [_logDebug ?m ?x] =>
      destruct (quiet_logDebug m x) as (wd & evs & Hd & _); rewrite Hd
  end.
  destruct (callback_truthy cb); [|reflexivity].
  pose proof (invoke_returns R cb t k v (own_get (heap w) t k) wd
                defers keys_plain) as Hinv.
  destruct (invoke R cb t k v (own_get (heap w) t k) wd) as [[[]|e] w3];
    [reflexivity|discriminate].
Qed.
End Callback.
End Bare.

(** ** The handlers at the site of a request *)

Section Site.
Variable H : host.
Variable R : realm.
Variables (p t : loc) (cb : callback) (name : string) (n : nat).
Variables (kt kn : kind) (outcome : result val).
Variable r : fetchRequest.

Hypothesis laws : json_laws R.
Hypothesis flag_plain : plain_key R "_isReactiveProxy".
Hypothesis bare_target : bare_at R t kt container_keys.
Hypothesis bare_node : exotic R n kn marker = None.
Hypothesis defers : cb_defers cb = true.
Hypothesis keys_plain : Forall (plain_key R) (cb_keys cb).
Hypothesis container : fetchStateContainer r = VRef p.
Hypothesis element : node r = n.

Local Abbreviation site := (fetch_site R p t cb name n kt kn outcome).

Lemma site_stable : stable site.
Proof.
  intros K h h' [FP FO] [Hp (o & Ht & Hf & Hk) (el & Hn & Hfn & Hkn) Ho].
  destruct (FO _ _ Ht) as (o' & Ht' & Hf' & Hk' & _).
  destruct (FO _ _ Hn) as (el' & Hn' & Hfn' & Hkn' & _).
  constructor.
  - eauto.
  - exists o'. repeat split; congruence.
  - exists el'. repeat split; congruence.
  - destruct outcome as [data|e]; [reflexivity|].
    unfold plain_outcome, plain_error in *.
    destruct e as [msg|[| | | | | |el0]]; try reflexivity.
    destruct (h !! el0) as [[eo|? ? ?]|] eqn:He; try discriminate.
    destruct (FO _ _ He) as (eo' & He' & _ & Hke & _).
    now rewrite He', Hke.
Qed.

Lemma bare_key (k : string) : In k container_keys -> exotic R t kt k = None.
Proof.
  intros Hin. unfold bare_at in bare_target.
  rewrite List.Forall_forall in bare_target. now apply bare_target.
Qed.

Lemma site_get_node (w : world) :
  site (heap w) ->
  get_prop R (VRef n) marker w = (Ok (own_get (heap w) n marker), w).
Proof.
  intros [_ _ (el & Hn & _ & Hkn) _]. unfold get_prop. rewrite Hn.
  apply obj_get_bare with el; [exact Hn|]. now rewrite Hkn.
Qed.

Lemma site_delete_node (w : world) :
  site (heap w) ->
  exists w1,
    delete_prop R (VRef n) marker w = (Ok tt, w1)
    /\ frame [marker] (heap w) (heap w1)
    /\ own_has (heap w1) n marker = false.
Proof.
  intros [_ _ (el & Hn & Hfn & _) _].
  unfold delete_prop, bind. rewrite Hn. unfold Reflect_deleteProperty.
  rewrite Hn, Hfn. cbn [andb]. eexists. split; [reflexivity|]. cbn [heap set_heap]. split.
  - now apply frame_delete.
  - unfold own_has.
    rewrite list_lookup_insert_eq by (eapply lookup_lt_Some; eauto).
    unfold prop_has. cbn [o_props with_props].
    now rewrite prop_get_del_eq.
Qed.

Lemma site_get (w : world) (k : string) :
  site (heap w) ->
  In k container_keys ->
  exists v w',
    get_prop R (VRef p) k w = (Ok v, w')
    /\ frame [] (heap w) (heap w')
    /\ (forall s, v = VStr s <-> own_get (heap w) t k = VStr s).
Proof.
  intros [Hp (o & Ht & Hf & Hk) _ _] Hin.
  destruct (special_keys k Hin) as [E1 E2].
  unfold get_prop. rewrite Hp.
  apply get_trap_bare_frame with o; auto.
  rewrite Hk. now apply bare_key.
Qed.

Lemma site_set (w : world) (k : string) (v : val) :
  site (heap w) ->
  In k container_keys ->
  let w' := snd (set_prop R (VRef p) k v w) in
  frame [k] (heap w) (heap w')
  /\ (is_object v = false -> own_get (heap w') t k = v).
Proof.
  intros [Hp (o & Ht & Hf & Hk) _ _] Hin.
  pose proof (set_trap_bare R (jl_wraps R laws) cb defers keys_plain
                w t name k v o Ht Hf) as Htrap.
  rewrite Hk in Htrap. specialize (Htrap (bare_key k Hin)).
  cbv zeta in Htrap |- *.
  assert (Hsnd : snd (set_prop R (VRef p) k v w)
                 = snd (set_trap R t cb name k v w)).
  { rewrite (set_prop_proxy R w p t cb name k v Hp). unfold bind.
    destruct (set_trap R t cb name k v w) as [[[]|e] w']; reflexivity. }
  now rewrite Hsnd.
Qed.

Lemma site_set_returns (w : world) (k : string) (v : val) (o : object) :
  site (heap w) ->
  In k container_keys ->
  heap w !! t = Some (CObj o) ->
  Text.startsWith k "_" = true
  \/ strict_eq v (own_get (heap w) t k) && negb (is_object v) = true
  \/ (stringifies R (write_slot t k v o (heap w)) (own_get (heap w) t k)
      = true
      /\ is_object v = false) ->
  fst (set_prop R (VRef p) k v w) = Ok tt.
Proof.
  intros [Hp (o' & Ht' & Hf & Hk) _ _] Hin Ht Hcase.
  assert (o' = o) by congruence. subst o'.
  assert (Htrap : fst (set_trap R t cb name k v w) = Ok true).
  { apply (set_trap_returns R cb defers keys_plain w t name k v o Ht Hf).
    - rewrite Hk. now apply bare_key.
    - destruct Hcase as [?|[?|[Ho Hv]]]; auto.
      right; right. split; [exact Ho|]. intros h.
      unfold stringifies. destruct (jl_plain R laws v h Hv) as [s ->].
      reflexivity. }
  rewrite (set_prop_proxy R w p t cb name k v Hp). unfold bind.
  destruct (set_trap R t cb name k v w) as [[[]|e] w'];
    simpl in Htrap; try discriminate. reflexivity.
Qed.

(** An assignment to the container throws a [TypeError] or nothing. *)
Lemma site_set_throws (w : world) (k : string) (v : val) (e : exn)
  (w' : world) :
  site (heap w) ->
  In k container_keys ->
  set_prop R (VRef p) k v w = (Throw e, w') ->
  exists msg, e = TypeError msg.
Proof.
  intros [Hp (o & Ht & Hf & Hk) _ _] Hin.
  rewrite (set_prop_proxy R w p t cb name k v Hp).
  assert (Hb : exotic R t (o_kind o) k = None)
    by (rewrite Hk; now apply bare_key).
  unfold bind at 1.
  rewrite (set_trap_stores R w t cb name k v o Ht Hf
             (data_slot_bare R t o k Hb)).
  match goal with |- context [if ?c then _ else _] => destruct c end;
    [discriminate|].
  destruct (negb (Text.startsWith k "_")); [|discriminate].
  set (w1 := set_heap _ w). unfold bind at 1. unfold bind at 1.
  unfold JSON_stringify at 1, on_heap.
  destruct (fst (stringify R (slot_value R t o k) (heap w1)))
    as [so|e1] eqn:Hso.
  2:{ intros Heq. injection Heq as <- _.
      exact (jl_throws R laws _ _ _ Hso). }
  unfold bind at 1. unfold JSON_stringify at 1, on_heap.
  cbn [heap set_heap].
  destruct (fst (stringify R v _)) as [sn|e2] eqn:Hsn.
  2:{ intros Heq. injection Heq as <- _.
      exact (jl_throws R laws _ _ _ Hsn). }
  destruct (negb (bool_decide (so = sn))); [|discriminate].
  unfold bind at 1.
  match goal with
  | |- context [_logDebug ?m ?x] =>
      destruct (quiet_logDebug m x) as (wd & evs & Hd & _); rewrite Hd
  end.
  destruct (callback_truthy cb); [|discriminate].
  pose proof (invoke_returns R cb t k v (slot_value R t o k) wd
                defers keys_plain) as Hinv.
  destruct (invoke R cb t k v (slot_value R t o k) wd) as [[[]|e3] w3];
    discriminate.
Qed.

Lemma keeps_set (k : string) (v : val) :
  In k container_keys -> keeps [k] site (set_prop R (VRef p) k v).
Proof. intros Hin w Hs. now apply site_set. Qed.

(** Reading [error.message] leaves the heap alone. *)
Lemma error_message_kept (e : exn) (w : world) :
  plain_error R (heap w) e = true ->
  snd (error_message R e w) = w.
Proof.
  unfold plain_error, error_message, get_prop.
  destruct e as [msg|[| | | | | |el]]; try reflexivity.
  destruct (heap w !! el) as [[eo|? ? ?]|] eqn:He; try discriminate.
  intros Hacc. unfold obj_get. rewrite He.
  destruct (prop_get "message" (o_props eo)); [reflexivity|].
  destruct (exotic R el (o_kind eo) "message") as [[]|];
    try reflexivity; discriminate.
Qed.

Lemma keeps_catch (K : list string) (e : exn) :
  incl then_keys K ->
  (forall h, site h -> plain_error R h e = true) ->
  keeps K site (fetch_catch H R r e).
Proof.
  intros Hi He. unfold fetch_catch. rewrite container.
  apply keeps_bind; [apply site_stable| |intros _].
  { apply keeps_kept, heap_kept_console_error. }
  apply keeps_bind; [apply site_stable| |intros _].
  { eapply keeps_mono; [|apply keeps_set; simpl; tauto].
    intros k [<-|[]]. apply Hi. simpl; tauto. }
  apply keeps_bind; [apply site_stable| |intros message].
  { intros w Hs. rewrite (error_message_kept e w (He _ Hs)).
    apply frame_refl. }
  apply keeps_bind; [apply site_stable| |intros shown].
  { apply keeps_kept. destruct (truthy message); [apply heap_kept_ret|].
    apply heap_kept_bind; [|intros; apply heap_kept_ret].
    unfold error_text. destruct e; [apply heap_kept_ret|now intros w]. }
  apply keeps_bind; [apply site_stable| |intros _].
  { eapply keeps_mono; [|apply keeps_set; simpl; tauto].
    intros k [<-|[]]. apply Hi. simpl; tauto. }
  apply keeps_kept, heap_kept_with_class. intros s.
  apply heap_kept_classList_add.
Qed.

Lemma keeps_then (data : val) :
  keeps then_keys site (fetch_then R r data).
Proof.
  unfold fetch_then. rewrite container.
  apply keeps_bind; [apply site_stable| |intros _].
  { eapply keeps_mono; [|apply keeps_set; simpl; tauto].
    intros k [<-|[]]. simpl; tauto. }
  apply keeps_bind; [apply site_stable| |intros _].
  { eapply keeps_mono; [|apply keeps_set; simpl; tauto].
    intros k [<-|[]]. simpl; tauto. }
  eapply keeps_mono; [|apply keeps_set; simpl; tauto].
  intros k [<-|[]]. simpl; tauto.
Qed.

(** The [then] handler throws a [TypeError] or nothing. *)
Lemma then_throws (data : val) (w w' : world) (e : exn) :
  site (heap w) ->
  fetch_then R r data w = (Throw e, w') ->
  exists msg, e = TypeError msg.
Proof.
  intros Hs. unfold fetch_then. rewrite container. unfold bind at 1.
  pose proof (keeps_set "data" data ltac:(simpl; tauto) w Hs) as F1.
  destruct (set_prop R (VRef p) "data" data w) as [[[]|e1] w1] eqn:E1.
  2:{ intros Heq. injection Heq as <- _.
      eapply site_set_throws; [exact Hs| |exact E1]. simpl; tauto. }
  cbn [snd] in F1.
  assert (Hs1 : site (heap w1)) by (eapply site_stable; eauto).
  unfold bind at 1.
  pose proof (keeps_set "$error" VNull ltac:(simpl; tauto) w1 Hs1) as F2.
  destruct (set_prop R (VRef p) "$error" VNull w1) as [[[]|e2] w2] eqn:E2.
  2:{ intros Heq. injection Heq as <- _.
      eapply site_set_throws; [exact Hs1| |exact E2]. simpl; tauto. }
  cbn [snd] in F2.
  assert (Hs2 : site (heap w2)) by (eapply site_stable; eauto).
  intros E3. eapply site_set_throws; [exact Hs2| |exact E3].
  simpl; tauto.
Qed.

(** What the [finally] handler leaves behind. *)
Lemma finally_spec (w : world) :
  site (heap w) ->
  let h' := heap (snd (fetch_finally R r w)) in
  frame finally_keys (heap w) h'
  /\ own_get h' t "$loading" = VBool false
  /\ (own_get (heap w) n marker = VStr (fetchRequestId r) ->
      own_has h' n marker = false)
  /\ (own_get (heap w) n marker <> VStr (fetchRequestId r) ->
      own_has h' n marker = own_has (heap w) n marker
      /\ (is_object (own_get (heap w) n marker) = false ->
          own_get h' n marker = own_get (heap w) n marker))
  /\ (own_get (heap w) t "_spxLastFetchId" = VStr (fetchRequestId r) ->
      own_get h' t "_spxIsCurrentlyFetching" = VBool false)
  /\ (own_get (heap w) t "_spxLastFetchId" <> VStr (fetchRequestId r) ->
      is_object (own_get (heap w) t "_spxIsCurrentlyFetching") = false ->
      own_get h' t "_spxIsCurrentlyFetching"
      = own_get (heap w) t "_spxIsCurrentlyFetching").
Proof.
  intros Hs h'.
  assert (Ehf : heap (snd (fetch_finally R r w)) = h') by reflexivity.
  clearbody h'. unfold fetch_finally in Ehf.
  rewrite container, element in Ehf.
  unfold bind at 1 in Ehf. rewrite (site_get_node w Hs) in Ehf.
  set (m := own_get (heap w) n marker) in *.
  (* the marker *)
  assert (Hdel : exists w1,
    when (strict_eq m (VStr (fetchRequestId r)))
      (delete_prop R (VRef n) marker) w = (Ok tt, w1)
    /\ frame [marker] (heap w) (heap w1)
    /\ (m = VStr (fetchRequestId r) -> own_has (heap w1) n marker = false)
    /\ (m <> VStr (fetchRequestId r) -> w1 = w)).
  { unfold strict_eq.
    destruct (bool_decide (m = VStr (fetchRequestId r))) eqn:Hm.
    - apply bool_decide_eq_true in Hm.
      destruct (site_delete_node w Hs) as (w1 & Hrun & F & Hgone).
      exists w1. cbn [when]. split; [exact Hrun|]. split; [exact F|].
      split; [intros _; exact Hgone|intros Hne; contradiction].
    - apply bool_decide_eq_false in Hm.
      exists w. cbn [when]. split; [reflexivity|].
      split; [apply frame_refl|].
      split; [intros Heq; contradiction|reflexivity]. }
  destruct Hdel as (w1 & Hrun1 & F1 & Hgone & Hsame).
  unfold bind at 1 in Ehf. rewrite Hrun1 in Ehf.
  assert (Hs1 : site (heap w1)) by (eapply site_stable; eauto).
  (* the container's flag *)
  destruct (site_get w1 "_spxLastFetchId" Hs1 ltac:(simpl; tauto))
    as (lastId & w2 & Hrun2 & F2 & Hlast).
  unfold bind at 1 in Ehf. rewrite Hrun2 in Ehf.
  assert (Hs2 : site (heap w2)) by (eapply site_stable; eauto).
  set (clear_flag :=
         when (strict_eq lastId (VStr (fetchRequestId r)))
           (set_prop R (VRef p) "_spxIsCurrentlyFetching" (VBool false))).
  assert (Hflag : exists w3,
    clear_flag w2 = (Ok tt, w3)
    /\ frame ["_spxIsCurrentlyFetching"] (heap w2) (heap w3)
    /\ (lastId = VStr (fetchRequestId r) ->
        own_get (heap w3) t "_spxIsCurrentlyFetching" = VBool false)
    /\ (lastId <> VStr (fetchRequestId r) -> w3 = w2)).
  { unfold clear_flag, strict_eq.
    destruct (bool_decide (lastId = VStr (fetchRequestId r))) eqn:Hl.
    - apply bool_decide_eq_true in Hl. cbn [when].
      destruct (site_set w2 "_spxIsCurrentlyFetching" (VBool false) Hs2
                  ltac:(simpl; tauto)) as [F Hv].
      destruct Hs2 as [Hp2 (o2 & Ht2 & Hf2 & Hk2) Hn2 Ho2].
      pose proof (site_set_returns w2 "_spxIsCurrentlyFetching"
                    (VBool false) o2
                    (FetchSite _ _ _ _ _ _ _ _ _ _ Hp2
                       (ex_intro _ o2 (conj Ht2 (conj Hf2 Hk2))) Hn2 Ho2)
                    ltac:(simpl; tauto) Ht2 (or_introl eq_refl)) as Hret.
      destruct (set_prop R (VRef p) "_spxIsCurrentlyFetching" (VBool false)
                  w2) as [[[]|e] w3]; simpl in Hret; try discriminate.
      exists w3. split; [reflexivity|]. split; [exact F|].
      split; [intros _; apply Hv; reflexivity|intros Hne; contradiction].
    - apply bool_decide_eq_false in Hl. cbn [when].
      exists w2. split; [reflexivity|]. split; [apply frame_refl|].
      split; [intros Heq; contradiction|reflexivity]. }
  destruct Hflag as (w3 & Hrun3 & F3 & Hcleared & Hkept).
  unfold bind at 1 in Ehf. fold clear_flag in Ehf. rewrite Hrun3 in Ehf.
  assert (Hs3 : site (heap w3)) by (eapply site_stable; eauto).
  (* [$loading] *)
  destruct (site_set w3 "$loading" (VBool false) Hs3 ltac:(simpl; tauto))
    as [F4 Hloading].
  set (w4 := snd (set_prop R (VRef p) "$loading" (VBool false) w3)) in *.
  assert (Hend :
    heap (snd ((set_prop R (VRef p) "$loading" (VBool false) ;;;
                with_class (fetchLoadingClass r) (classList_remove n)) w3))
    = heap w4).
  { unfold bind, w4.
    destruct (set_prop R (VRef p) "$loading" (VBool false) w3)
      as [[[]|e] w']; [|reflexivity].
    cbn [snd]. apply heap_kept_with_class. intros s.
    apply heap_kept_classList_remove. }
  rewrite Hend in Ehf. clear Hend. subst h'.
  assert (F34 : frame ["_spxIsCurrentlyFetching"; "$loading"]
                  (heap w2) (heap w4)).
  { eapply frame_trans; eapply frame_mono; try eassumption;
      intros k [<-|[]]; simpl; tauto. }
  assert (F14 : frame ["_spxIsCurrentlyFetching"; "$loading"]
                  (heap w1) (heap w4)).
  { eapply frame_trans; [|exact F34].
    eapply frame_mono; [|exact F2]. intros ? []. }
  destruct Hs as [Hp0 (o0 & Ht0 & Hf0 & Hk0) (el0 & Hn0 & Hfn0 & Hkn0) Ho0].
  destruct Hs1 as [_ (o1 & Ht1 & _) (el1 & Hn1 & _) _].
  destruct Hs3 as [_ (o3 & Ht3 & _) _ _].
  split.
  { eapply frame_trans.
    - eapply frame_mono; [|exact F1]. intros k [<-|[]]. simpl; tauto.
    - eapply frame_mono; [|exact F14].
      intros k [<-|[<-|[]]]; simpl; tauto. }
  split; [now apply Hloading|].
  split.
  { intros Hm. rewrite (frame_own_has _ _ _ n el1 marker F14 Hn1).
    - now apply Hgone.
    - unfold marker. simpl. intuition discriminate. }
  split.
  { intros Hm. rewrite (Hsame Hm) in *. split.
    - apply (frame_own_has _ _ _ n el0 marker F14 Hn0).
      unfold marker. simpl. intuition discriminate.
    - apply (frame_own_get _ _ _ n el0 marker F14 Hn0).
      unfold marker. simpl. intuition discriminate. }
  assert (Hid : own_get (heap w1) t "_spxLastFetchId"
                = VStr (fetchRequestId r)
                <-> own_get (heap w) t "_spxLastFetchId"
                    = VStr (fetchRequestId r)).
  { split; intros Hx.
    - destruct (val_eq_dec (own_get (heap w) t "_spxLastFetchId")
                  (VStr (fetchRequestId r))) as [E|E]; [exact E|].
      exfalso.
      apply (frame_not_text _ _ _ t o0 "_spxLastFetchId" _ F1 Ht0) in E;
        [contradiction|].
      unfold marker. simpl. intuition discriminate.
    - rewrite (frame_own_get _ _ _ t o0 "_spxLastFetchId" F1 Ht0);
        [exact Hx| |now rewrite Hx].
      unfold marker. simpl. intuition discriminate. }
  split.
  { intros Hx. apply Hid, Hlast in Hx.
    rewrite (frame_own_get _ _ _ t o3 "_spxIsCurrentlyFetching" F4 Ht3).
    - now apply Hcleared.
    - simpl. intuition discriminate.
    - now rewrite (Hcleared Hx). }
  intros Hx Hprim.
  assert (Hne : lastId <> VStr (fetchRequestId r)).
  { intros E. apply Hx, Hid, Hlast. exact E. }
  rewrite (Hkept Hne) in *.
  assert (F04 : frame [marker; "$loading"] (heap w) (heap w4)).
  { eapply frame_trans.
    - eapply frame_mono; [|exact F1]. intros k [<-|[]]. simpl; tauto.
    - eapply frame_trans.
      + eapply frame_mono; [|exact F2]. intros ? [].
      + eapply frame_mono; [|exact F4]. intros k [<-|[]]. simpl; tauto. }
  apply (frame_own_get _ _ _ t o0 "_spxIsCurrentlyFetching" F04 Ht0);
    [|exact Hprim].
  unfold marker. simpl. intuition discriminate.
Qed.
Lemma shown_error_primitive (h : list cell) (e : exn) :
  readable_error R h e = true -> is_object (shown_error H R h e) = false.
Proof.
  unfold readable_error, shown_error.
  destruct e as [msg|v].
  - intros _. now destruct (truthy (VStr msg)).
  - destruct v as [| |b|z|s|f|el]; try discriminate; intros Hr;
      try (destruct (truthy (primitive_get R _ "message"));
           [now apply negb_true_iff in Hr|reflexivity]).
    destruct (h !! el) as [[eo|? ? ?]|]; try discriminate.
    apply andb_true_iff in Hr as [_ Hr]. now apply negb_true_iff in Hr.
Qed.

Lemma readable_plain (h : list cell) (e : exn) :
  readable_error R h e = true -> plain_error R h e = true.
Proof.
  unfold readable_error, plain_error.
  destruct e as [msg|[| | | | | |el]]; try reflexivity.
  destruct (h !! el) as [[eo|? ? ?]|]; try discriminate.
  intros Hr. apply andb_true_iff in Hr as [Hr _].
  now apply andb_true_iff in Hr as [Hr _].
Qed.

(** The text the [catch] handler computes, read in a later heap. *)
Lemma shown_error_later {A : Type} (K : list string) (e : exn)
  (h0 : list cell) (w : world) (k : val -> M A) :
  frame K h0 (heap w) ->
  ~ In "message" K ->
  readable_error R h0 e = true ->
  (message <- error_message R e ;;
   shown <- (if truthy message then ret message
             else s <- error_text H e ;; ret (VStr s)) ;;
   k shown) w
  = k (shown_error H R h0 e) w.
Proof.
  intros [_ FO] Hk Hr. unfold readable_error in Hr.
  unfold shown_error, error_message, error_text.
  destruct e as [msg|v].
  - unfold bind, ret. cbn [truthy].
    destruct (negb (msg =? "")%string) eqn:Hm; [reflexivity|].
    apply negb_false_iff in Hm. now rewrite Hm.
  - destruct v as [| |b|z|s|f|el]; try discriminate;
      try (unfold bind, ret, get_prop, js_String;
           destruct (truthy (primitive_get R _ "message")); reflexivity).
    destruct (h0 !! el) as [[eo|? ? ?]|] eqn:He; try discriminate.
    apply andb_true_iff in Hr as [Hr Hprim].
    apply andb_true_iff in Hr as [Hacc Htruthy].
    apply negb_true_iff in Hprim. apply negb_true_iff in Hacc.
    destruct (FO _ _ He) as (eo' & He' & _ & Hkind & G).
    assert (Hget : get_prop R (VRef el) "message" w
                   = (Ok (slot_value R el eo "message"), w)).
    { unfold get_prop, obj_get. rewrite He'.
      unfold slot_value in *. rewrite Hkind.
      pose proof (G "message" Hk) as Hkept.
      destruct (prop_get "message" (o_props eo)) as [v|] eqn:Hv.
      - rewrite (slot_kept_primitive _ _ Hkept Hprim). reflexivity.
      - assert (Hnone : prop_get "message" (o_props eo') = None)
          by now apply (slot_kept_presence _ _ Hkept).
        rewrite Hnone.
        destruct (exotic R el (o_kind eo) "message") as [[]|];
          try reflexivity; discriminate. }
    unfold bind at 1. rewrite Hget. unfold bind at 1.
    rewrite Htruthy. reflexivity.
Qed.

(** What the [catch] handler leaves in the container. *)
Lemma catch_spec (w : world) (e : exn) :
  site (heap w) ->
  readable_error R (heap w) e = true ->
  clearable R (heap w) t "data" = true ->
  let h1 := heap (snd (fetch_catch H R r e w)) in
  own_get h1 t "data" = VNull
  /\ own_get h1 t "$error" = shown_error H R (heap w) e.
Proof.
  intros Hs Hr Hc h1.
  assert (Eh : heap (snd (fetch_catch H R r e w)) = h1) by reflexivity.
  clearbody h1. unfold fetch_catch in Eh. rewrite container in Eh.
  unfold bind at 1, console_error at 1, modify at 1 in Eh.
  cbv beta iota in Eh.
  set (w0 := emit_event _ w) in Eh.
  unfold bind at 1 in Eh.
  assert (Hs0 : site (heap w0)) by exact Hs.
  pose proof Hs0 as [Hp0 (o & Ht & Hf & Hk) _ _].
  (* [data] is cleared *)
  assert (Hret : fst (set_prop R (VRef p) "data" VNull w0) = Ok tt).
  { apply (site_set_returns w0 "data" VNull o Hs0);
      [simpl; tauto|exact Ht|].
    unfold clearable in Hc. change (heap w0) with (heap w).
    change (heap w0) with (heap w) in Ht. rewrite Ht in Hc.
    apply orb_true_iff in Hc as [Hnull|Hstr].
    - right; left. apply bool_decide_eq_true in Hnull. rewrite Hnull.
      reflexivity.
    - right; right. split; [exact Hstr|reflexivity]. }
  destruct (site_set w0 "data" VNull Hs0 ltac:(simpl; tauto))
    as [F1 Hdata].
  destruct (set_prop R (VRef p) "data" VNull w0) as [[[]|e1] w1];
    simpl in Hret; try discriminate.
  cbn [snd] in F1, Hdata. specialize (Hdata eq_refl).
  assert (Hs1 : site (heap w1)) by (eapply site_stable; eauto).
  cbv beta iota in Eh.
  rewrite (shown_error_later ["data"] e (heap w) w1) in Eh;
    [|exact F1|simpl; intuition discriminate|exact Hr].
  (* [$error] is set *)
  destruct (site_set w1 "$error" (shown_error H R (heap w) e) Hs1
              ltac:(simpl; tauto)) as [F2 Herror].
  specialize (Herror (shown_error_primitive _ _ Hr)).
  assert (Hend :
    heap (snd ((set_prop R (VRef p) "$error" (shown_error H R (heap w) e)
                ;;; with_class (fetchErrorClass r) (classList_add (node r)))
                 w1))
    = heap (snd (set_prop R (VRef p) "$error"
                   (shown_error H R (heap w) e) w1))).
  { unfold bind.
    destruct (set_prop R (VRef p) "$error" _ w1) as [[[]|e2] w2];
      [|reflexivity].
    cbn [snd]. apply heap_kept_with_class. intros s.
    apply heap_kept_classList_add. }
  rewrite Hend in Eh. subst h1. split; [|exact Herror].
  destruct Hs1 as [_ (o1 & Ht1 & _) _ _].
  rewrite (frame_own_get _ _ _ t o1 "data" F2 Ht1);
    [exact Hdata|simpl; intuition discriminate|now rewrite Hdata].
Qed.
End Site.

(** ** Settlement *)


(** ** The sample realm *)

Lemma json_items_throws (rs : list (result (option string))) (e : exn) :
  json_items rs = Throw e -> In (Throw e) rs.
Proof.
  induction rs as [|[s|e'] rs IH]; simpl; [discriminate| |].
  - destruct (json_items rs); [discriminate|].
    intros Heq. injection Heq as ->. right. now apply IH.
  - intros Heq. injection Heq as ->. now left.
Qed.

Lemma json_members_throws (rs : list (string * result (option string)))
  (e : exn) :
  json_members rs = Throw e -> exists k, In (k, Throw e) rs.
Proof.
  induction rs as [|[k [s|e']] rs IH]; simpl; [discriminate| |].
  - destruct (json_members rs); [destruct s; discriminate|].
    intros Heq. injection Heq as ->. destruct (IH eq_refl) as [k' Hk'].
    exists k'. now right.
  - intros Heq. injection Heq as ->. exists k. now left.
Qed.

Lemma json_fuel_throws (fuel : nat) :
  forall (h : list cell) (v : val) (e : exn),
    json_fuel fuel h v = Throw e -> exists msg, e = TypeError msg.
Proof.
  induction fuel as [|f IH]; intros h v e.
  - destruct v; simpl; try discriminate.
    intros Heq. injection Heq as <-. eauto.
  - destruct v; cbn [json_fuel]; try discriminate.
    destruct (h !! l) as [[o|t ? ?]|]; [|apply IH|];
      [|intros Heq; injection Heq as <-; eauto].
    destruct (o_kind o); try discriminate.
    + destruct (json_members _) eqn:Hm; [discriminate|].
      intros Heq. injection Heq as ->.
      destruct (json_members_throws _ _ Hm) as [k Hk].
      apply in_map_iff in Hk as ([k' v'] & Heq & _).
      injection Heq as _ Heq. eapply IH; eauto.
    + destruct (json_items _) eqn:Hm; [discriminate|].
      intros Heq. injection Heq as ->.
      apply json_items_throws in Hm.
      apply in_map_iff in Hm as ([k' v'] & Heq & _). eapply IH; eauto.
    + destruct (json_members _) eqn:Hm; [discriminate|].
      intros Heq. injection Heq as ->.
      destruct (json_members_throws _ _ Hm) as [k Hk].
      apply in_map_iff in Hk as ([k' v'] & Heq & _).
      injection Heq as _ Heq. eapply IH; eauto.
    + destruct (json_members _) eqn:Hm; [discriminate|].
      intros Heq. injection Heq as ->.
      destruct (json_members_throws _ _ Hm) as [k Hk].
      apply in_map_iff in Hk as ([k' v'] & Heq & _).
      injection Heq as _ Heq. eapply IH; eauto.
    + destruct (json_members _) eqn:Hm; [discriminate|].
      intros Heq. injection Heq as ->.
      destruct (json_members_throws _ _ Hm) as [k Hk].
      apply in_map_iff in Hk as ([k' v'] & Heq & _).
      injection Heq as _ Heq. eapply IH; eauto.
Qed.

Lemma demo_json_laws : json_laws demo_realm.
Proof.
  constructor.
  - intros v h. apply frame_refl.
  - intros v h Hv. destruct v; try discriminate; eexists; reflexivity.
  - intros v h e. apply json_fuel_throws.
Qed.

Lemma demo_flag_plain : plain_key demo_realm "_isReactiveProxy".
Proof. intros l kd. now destruct kd. Qed.



(** The directive run that starts the first request. *)
Example directive_starts_request :
  fst (render_user 1 6 fetch_world) = Ok (Some first_request).
Proof. vm_compute. reflexivity. Qed.

(** A promise rejected with [undefined]: reading [error.message] throws in
    the [catch] handler, [$error] keeps its [null], and [finally] still
    runs. *)
Example rejection_with_undefined :
  let s := settle demo_host demo_realm first_request (Throw (Thrown VUndef))
             fetching_world in
  fst s = Throw (TypeError "Cannot read properties of null or undefined")
  /\ own_get (heap (snd s)) 10 "$error" = VNull
  /\ own_get (heap (snd s)) 10 "$loading" = VBool false.
Proof. vm_compute. repeat split. Qed.

(** A promise rejected with [new TypeError('')]: the message is empty and
    the text is the error's name. *)
Example rejection_with_empty_type_error :
  let s := settle demo_host demo_realm first_request (Throw (TypeError ""))
             fetching_world in
  own_get (heap (snd s)) 10 "$error" = VStr "TypeError".
Proof. vm_compute. reflexivity. Qed.
